(** * PhysicsTools/MVAComputer: ProcLikelihood and ProcNormalize

    A shallow embedding of the two variable processors of
    [src/ProcLikelihood.cc] and [src/ProcNormalize.cc], and the properties
    of their [configure] and [eval] member functions.

    Conventions of the embedding.
    - [unsigned int] values are integers of [Z] whose wrap-around modulo
      [2^32] is written out where the source computes with them
      ([Machine.uint]); the conversion [(int)n] of an unsigned value is
      [Machine.sint].  Signed [int] arithmetic is undefined on overflow in
      the source and is written in [Z].
    - [double] is a type [D] with the operations of the class [DoubleOps].
      Everything that only depends on the control flow is proved for every
      such [D]; the properties that need arithmetic laws are proved for
      the IEEE 754 binary64 arithmetic of [SpecFloat] ([SFDouble]).  The
      exact arithmetic of the rationals ([QDouble]) only serves to run
      the processors on concrete events.
    - Operations whose behaviour is undefined in the source (an integer
      division by zero, reading the value of a slot that holds none, a
      [double] to [int] conversion out of range) return [None]. *)

From Stdlib Require Import ZArith List Bool Lia QArith Qpower Qround SpecFloat.
Import ListNotations.

Local Open Scope Z_scope.

(** ** Machine integers *)

Module Machine.

Definition UINT_MOD : Z := 2 ^ 32.
Definition INT_MAX : Z := 2 ^ 31 - 1.
Definition INT_MIN : Z := - 2 ^ 31.

(** The value of an expression of type [unsigned int]. *)
Definition uint (z : Z) : Z := z mod UINT_MOD.

(** [(int)n] for an [unsigned int] n. *)
Definition sint (n : Z) : Z :=
  let m := n mod UINT_MOD in
  if m <=? INT_MAX then m else m - UINT_MOD.

(** Whether an integer is representable as an [int]. *)
Definition is_int (z : Z) : bool := (INT_MIN <=? z) && (z <=? INT_MAX).

End Machine.

(** ** The type [double] *)

Class DoubleOps (D : Type) : Type := {
  d_zero : D;                   (* 0.0 *)
  d_one : D;                    (* 1.0 *)
  d_tiny : D;                   (* 1.0e-30 *)
  d_add : D -> D -> D;
  d_sub : D -> D -> D;
  d_mul : D -> D -> D;
  d_div : D -> D -> D;
  d_ltb : D -> D -> bool;       (* operator< *)
  d_of_int : Z -> D;            (* the conversion of an integer to double *)
  d_to_int : D -> Z;            (* the value of the cast (int)x *)
  d_exp : D -> D                (* std::exp *)
}.

Declare Scope double_scope.
Delimit Scope double_scope with D.
Infix "+" := d_add : double_scope.
Infix "-" := d_sub : double_scope.
Infix "*" := d_mul : double_scope.
Infix "/" := d_div : double_scope.
Infix "<?" := d_ltb : double_scope.

Section DoubleHelpers.
Context {D : Type} `{DoubleOps D}.

(** [std::max(a, b)] is [(a < b) ? b : a]. *)
Definition d_max (a b : D) : D := if (a <? b)%D then b else a.

(** [(int)x]; undefined when the value does not fit an [int]. *)
Definition cast_int (x : D) : option Z :=
  let z := d_to_int x in
  if Machine.is_int z then Some z else None.
End DoubleHelpers.

(** ** Collaborators declared outside the two source files *)

Section Collaborators.
Context {D : Type} `{DoubleOps D}.

(** Modelled from the spec: the interpolating curve of [Spline.h], which
    is not among the sources: point evaluation, cumulative integral,
    the number of entries and the total area. *)
Record Spline : Type := {
  spline_eval : D -> D;
  spline_integral : D -> D;
  spline_numberOfEntries : Z;
  spline_getArea : D
}.

(** Modelled from the spec: the binned histogram of the calibration
    objects, which is not among the sources: its range, its bin values
    (under- and overflow bins first and last), the bin count and the
    normalized bin content at a value. *)
Record HistogramF : Type := {
  range_min : D;
  range_width : D;
  histo_values : list D;
  numberOfBins : Z;
  normalizedValue : D -> D
}.

(** The vector [values().begin() + 1 .. values().end() - 1] that both
    processors hand to [Spline::set]. *)
Definition interior (values : list D) : list D := removelast (tl values).

(** Modelled from the spec: [Variable::Flags] of [Variable.h], the fixed
    vocabulary of arities a slot is declared with. *)
Inductive Flags : Type :=
| FLAG_NONE | FLAG_OPTIONAL | FLAG_MULTIPLE | FLAG_ALL.

(** Modelled from the spec: the configuration cursor [ConfIterator] of
    [VarProcessor.h]: the input slots still to be declared, the flags
    declared for the input slots so far and the outputs declared so
    far. *)
Record ConfIterator : Type := {
  conf_todo : nat;
  conf_inputs : list Flags;
  conf_outputs : list Flags
}.

(** Modelled from the spec: [iter++(flags)] declares the current input
    slot and moves on; the value of the expression carries the flags. *)
Definition conf_next (flags : Flags) (iter : ConfIterator) : Flags * ConfIterator :=
  (flags,
   {| conf_todo := pred (conf_todo iter);
      conf_inputs := conf_inputs iter ++ [flags];
      conf_outputs := conf_outputs iter |}).

(** Modelled from the spec: [iter << flags] declares one output. *)
Definition conf_out (flags : Flags) (iter : ConfIterator) : ConfIterator :=
  {| conf_todo := conf_todo iter;
     conf_inputs := conf_inputs iter;
     conf_outputs := conf_outputs iter ++ [flags] |}.

(** Modelled from the spec: the evaluation cursor [ValueIterator] of
    [VarProcessor.h]: the input slots from the current one on, each with
    its values in order; the values written to the output under
    construction; the outputs completed so far. *)
Record ValueIterator : Type := {
  slots : list (list D);
  pending : list D;
  outputs : list (list D)
}.

(** Modelled from the spec: the cursor the framework hands to [eval] for
    an event, at the first slot and with no output yet. *)
Definition cursor (event : list (list D)) : ValueIterator :=
  {| slots := event; pending := []; outputs := [] |}.

(** Modelled from the spec: [(bool)iter], whether the cursor is at a
    slot. *)
Definition valid (iter : ValueIterator) : bool :=
  match slots iter with [] => false | _ :: _ => true end.

(** Modelled from the spec: [iter.begin() .. iter.end()], the values of
    the current slot; a cursor past the last slot holds no values. *)
Definition values (iter : ValueIterator) : list D := hd [] (slots iter).

(** Modelled from the spec: [*iter], the first value of the current
    slot. *)
Definition deref (iter : ValueIterator) : option D := hd_error (values iter).

(** Modelled from the spec: [++iter] moves to the next slot. *)
Definition next (iter : ValueIterator) : ValueIterator :=
  {| slots := tl (slots iter); pending := pending iter; outputs := outputs iter |}.

(** Modelled from the spec: [iter << value] writes one output value. *)
Definition push (value : D) (iter : ValueIterator) : ValueIterator :=
  {| slots := slots iter; pending := pending iter ++ [value]; outputs := outputs iter |}.

(** Modelled from the spec: [iter()] completes the output under
    construction, with the values written since the last one (none: an
    empty output). *)
Definition close (iter : ValueIterator) : ValueIterator :=
  {| slots := slots iter; pending := []; outputs := outputs iter ++ [pending iter] |}.

(** Modelled from the spec: [iter(value)] is [iter << value; iter()]. *)
Definition emit (value : D) (iter : ValueIterator) : ValueIterator :=
  close (push value iter).
End Collaborators.

Arguments Spline D : clear implicits.
Arguments HistogramF D : clear implicits.
Arguments ValueIterator D : clear implicits.

(** Modelled from the spec: [Spline::set] of [Spline.h], which builds the
    curve from its control points and is not among the sources. *)
Class SplineSet (D : Type) : Type := spline_set : list D -> Spline D.

(** ** ProcLikelihood *)

Module ProcLikelihood.
Section Processor.
Context {D : Type} `{DoubleOps D} `{SplineSet D}.

Inductive PDF : Type :=
| SplinePDF (min width : D) (spline : Spline D)
| HistogramPDF (histo : HistogramF D).

(** [SplinePDF::SplinePDF] *)
Definition new_SplinePDF (calib : HistogramF D) : PDF :=
  SplinePDF (range_min calib) (range_width calib)
            (spline_set (interior (histo_values calib))).

(** [SplinePDF::eval] and [HistogramPDF::eval] *)
Definition PDF_eval (pdf : PDF) (value : D) : D :=
  match pdf with
  | SplinePDF min width spline =>
      let value := ((value - min) / width)%D in
      (spline_eval spline value * d_of_int (spline_numberOfEntries spline)
       / spline_getArea spline)%D
  | HistogramPDF histo =>
      (normalizedValue histo value * d_of_int (numberOfBins histo))%D
  end.

Record SigBkg : Type := {
  signal : PDF;
  background : PDF
}.

(** [Calibration::ProcLikelihood::SigBkg] and [Calibration::ProcLikelihood] *)
Record CalibSigBkg : Type := {
  calib_signal : HistogramF D;
  calib_background : HistogramF D;
  useSplines : bool
}.

Record Calib : Type := {
  calib_pdfs : list CalibSigBkg;
  calib_categoryIdx : Z;
  calib_bias : D
}.

(** [SigBkg::SigBkg] *)
Definition new_SigBkg (calib : CalibSigBkg) : SigBkg :=
  if useSplines calib then
    {| signal := new_SplinePDF (calib_signal calib);
       background := new_SplinePDF (calib_background calib) |}
  else
    {| signal := HistogramPDF (calib_signal calib);
       background := HistogramPDF (calib_background calib) |}.

Record t : Type := {
  pdfs : list SigBkg;
  categoryIdx : Z;
  nCategories : Z;
  bias : D
}.

(** [ProcLikelihood::ProcLikelihood] *)
Definition new (calib : Calib) : t :=
  {| pdfs := map new_SigBkg (calib_pdfs calib);
     categoryIdx := calib_categoryIdx calib;
     nCategories := 1;
     bias := calib_bias calib |}.

Definition set_nCategories (v : Z) (p : t) : t :=
  {| pdfs := pdfs p; categoryIdx := categoryIdx p;
     nCategories := v; bias := bias p |}.

(** The loop [while(iter)] of [configure]; [todo] counts the slots the
    cursor still has. *)
Fixpoint declare_inputs (categoryIdx : Z) (todo : nat) (i : Z)
         (iter : ConfIterator) : ConfIterator :=
  match todo with
  | O => iter
  | S todo' =>
      let iter' :=
        if categoryIdx =? i then snd (conf_next FLAG_NONE iter)
        else snd (conf_next FLAG_ALL iter) in
      declare_inputs categoryIdx todo' (i + 1) iter'
  end.

(** The part of [configure] after the shape checks. *)
Definition declare (p : t) (iter : ConfIterator) : ConfIterator :=
  conf_out FLAG_OPTIONAL
           (declare_inputs (categoryIdx p) (conf_todo iter) 0 iter).

(** [ProcLikelihood::configure].  The result is the processor and the
    cursor when the function returns, [None] when it divides by zero. *)
Definition configure (p : t) (iter : ConfIterator) (n : Z)
  : option (t * ConfIterator) :=
  let size := Z.of_nat (length (pdfs p)) in
  if 0 <=? categoryIdx p then
    if Machine.sint n <? categoryIdx p + 1 then Some (p, iter)
    else
      let divisor := Machine.uint (n - 1) in
      if divisor =? 0 then None
      else
        let p := set_nCategories (Machine.uint (size / divisor)) p in
        if negb (Machine.uint (nCategories p * divisor) =? size)
        then Some (p, iter)
        else Some (p, declare p iter)
  else if negb (n =? size) then Some (p, iter)
  else Some (p, declare p iter).

(** The outcome of the category lookup of [eval]. *)
Inductive selection : Type :=
| OutOfRange
| Block (block : list SigBkg).

(** The value [cat] that [eval] reads when [categoryIdx >= 0]. *)
Definition category (p : t) (iter : ValueIterator D) : option Z :=
  let iter2 := Nat.iter (Z.to_nat (categoryIdx p)) next iter in
  match deref iter with
  | None => None
  | Some value => cast_int value
  end.

(** The first part of [eval]: [pdf] and [last] delimit the block. *)
Definition select (p : t) (iter : ValueIterator D) (n : Z)
  : option selection :=
  if 0 <=? categoryIdx p then
    match category p iter with
    | None => None
    | Some cat =>
        if (cat <? 0) || (nCategories p <=? Machine.uint cat)
        then Some OutOfRange
        else
          let first := Machine.uint (cat * Machine.uint (n - 1)) in
          Some (Block (firstn (Z.to_nat (Machine.uint (n - 1)))
                              (skipn (Z.to_nat first) (pdfs p))))
    end
  else Some (Block (pdfs p)).

(** The body of the loop over the values of one slot; the accumulator
    is [(vars, signal, background)]. *)
Definition accumulate (pdf : SigBkg) (acc : Z * D * D) (value : D)
  : Z * D * D :=
  let '(vars, sig, bkg) := acc in
  let signalProb := d_max d_zero (PDF_eval (signal pdf) value) in
  let backgroundProb := d_max d_zero (PDF_eval (background pdf) value) in
  if (signalProb + backgroundProb <? d_tiny)%D then acc
  else (vars + 1, (sig * signalProb)%D, (bkg * backgroundProb)%D).

(** The loop [for(int i = 0; pdf != last; ++iter, i++)].  The iteration
    with [i == categoryIdx] only advances the cursor and [i]; since
    [pdf] is unchanged the loop goes on with the same [pdf] and with
    [i + 1], which differs from [categoryIdx]. *)
Fixpoint loop (categoryIdx : Z) (block : list SigBkg) (i : Z)
         (iter : ValueIterator D) (acc : Z * D * D)
  : ValueIterator D * (Z * D * D) :=
  match block with
  | [] => (iter, acc)
  | pdf :: rest =>
      let '(i, iter) :=
        if i =? categoryIdx then (i + 1, next iter) else (i, iter) in
      let acc := fold_left (accumulate pdf) (values iter) acc in
      loop categoryIdx rest (i + 1) (next iter) acc
  end.

(** The decision at the end of [eval]. *)
Definition conclude (iter : ValueIterator D) (acc : Z * D * D)
  : ValueIterator D :=
  let '(vars, sig, bkg) := acc in
  if (vars =? 0) || (sig + bkg <? d_exp (d_of_int (-6 * vars - 2)))%D
  then close iter
  else emit (sig / (sig + bkg))%D iter.

(** [ProcLikelihood::eval] *)
Definition eval (p : t) (iter : ValueIterator D) (n : Z)
  : option (ValueIterator D) :=
  match select p iter n with
  | None => None
  | Some OutOfRange => Some (close iter)
  | Some (Block block) =>
      let '(iter, acc) :=
        loop (categoryIdx p) block 0 iter (0, bias p, d_one) in
      Some (conclude iter acc)
  end.
End Processor.

Arguments PDF D : clear implicits.
Arguments SigBkg D : clear implicits.
Arguments CalibSigBkg D : clear implicits.
Arguments Calib D : clear implicits.
Arguments t D : clear implicits.
Arguments selection D : clear implicits.
End ProcLikelihood.

(** ** ProcNormalize *)

Module ProcNormalize.
Section Processor.
Context {D : Type} `{DoubleOps D} `{SplineSet D}.

Record Map : Type := {
  min : D;
  width : D;
  spline : Spline D
}.

(** [Map::Map] *)
Definition new_Map (pdf : HistogramF D) : Map :=
  {| min := range_min pdf;
     width := range_width pdf;
     spline := spline_set (interior (histo_values pdf)) |}.

(** [Calibration::ProcNormalize] *)
Record Calib : Type := {
  distr : list (HistogramF D);
  calib_categoryIdx : Z
}.

Record t : Type := {
  maps : list Map;
  categoryIdx : Z;
  nCategories : Z
}.

(** [ProcNormalize::ProcNormalize] *)
Definition new (calib : Calib) : t :=
  {| maps := map new_Map (distr calib);
     categoryIdx := calib_categoryIdx calib;
     nCategories := 1 |}.

Definition set_nCategories (v : Z) (p : t) : t :=
  {| maps := maps p; categoryIdx := categoryIdx p; nCategories := v |}.

(** The loop [while(iter)] of [configure]. *)
Fixpoint declare_slots (categoryIdx : Z) (todo : nat) (i : Z)
         (iter : ConfIterator) : ConfIterator :=
  match todo with
  | O => iter
  | S todo' =>
      let iter' :=
        if categoryIdx =? i then snd (conf_next FLAG_NONE iter)
        else
          let '(flags, iter') := conf_next FLAG_ALL iter in
          conf_out flags iter' in
      declare_slots categoryIdx todo' (i + 1) iter'
  end.

Definition declare (p : t) (iter : ConfIterator) : ConfIterator :=
  declare_slots (categoryIdx p) (conf_todo iter) 0 iter.

(** [ProcNormalize::configure] *)
Definition configure (p : t) (iter : ConfIterator) (n : Z)
  : option (t * ConfIterator) :=
  let size := Z.of_nat (length (maps p)) in
  if 0 <=? categoryIdx p then
    if Machine.sint n <? categoryIdx p + 1 then Some (p, iter)
    else
      let divisor := Machine.uint (n - 1) in
      if divisor =? 0 then None
      else
        let p := set_nCategories (Machine.uint (size / divisor)) p in
        if negb (Machine.uint (nCategories p * divisor) =? size)
        then Some (p, iter)
        else Some (p, declare p iter)
  else if negb (n =? size) then Some (p, iter)
  else Some (p, declare p iter).

Inductive selection : Type :=
| OutOfRange
| Block (block : list Map).

(** The value [cat] that [eval] reads when [categoryIdx >= 0]. *)
Definition category (p : t) (iter : ValueIterator D) : option Z :=
  let iter2 := Nat.iter (Z.to_nat (categoryIdx p)) next iter in
  match deref iter with
  | None => None
  | Some value => cast_int value
  end.

(** The first part of [eval]: [map] and [last] delimit the block. *)
Definition select (p : t) (iter : ValueIterator D) (n : Z)
  : option selection :=
  if 0 <=? categoryIdx p then
    match category p iter with
    | None => None
    | Some cat =>
        if (cat <? 0) || (nCategories p <=? Machine.uint cat)
        then Some OutOfRange
        else
          let first := Machine.uint (cat * Machine.uint (n - 1)) in
          Some (Block (firstn (Z.to_nat (Machine.uint (n - 1)))
                              (skipn (Z.to_nat first) (maps p))))
    end
  else Some (Block (maps p)).

(** The loop [for(; iter; ++iter) iter();]; [todo] is the list of the
    slots the cursor still has. *)
Fixpoint abstain_slots (todo : list (list D)) (iter : ValueIterator D)
  : ValueIterator D :=
  match todo with
  | [] => iter
  | _ :: todo' => abstain_slots todo' (next (close iter))
  end.

Definition abstain (iter : ValueIterator D) : ValueIterator D :=
  abstain_slots (slots iter) iter.

(** The value a map sends an input value to. *)
Definition normalize (map : Map) (value : D) : D :=
  let val := value in
  let val := ((val - min map) / width map)%D in
  spline_integral (spline map) val.

(** The body of the loop over the values of one slot. *)
Definition transform (map : Map) (iter : ValueIterator D) (value : D)
  : ValueIterator D :=
  push (normalize map value) iter.

(** The loop [for(int i = 0; map != last; ++iter, i++)]; the iteration
    with [i == categoryIdx] is folded into the next one as in
    [ProcLikelihood.loop]. *)
Fixpoint loop (categoryIdx : Z) (block : list Map) (i : Z)
         (iter : ValueIterator D) : ValueIterator D :=
  match block with
  | [] => iter
  | map :: rest =>
      let '(i, iter) :=
        if i =? categoryIdx then (i + 1, next iter) else (i, iter) in
      let iter := fold_left (transform map) (values iter) iter in
      let iter := close iter in
      loop categoryIdx rest (i + 1) (next iter)
  end.

(** [ProcNormalize::eval] *)
Definition eval (p : t) (iter : ValueIterator D) (n : Z)
  : option (ValueIterator D) :=
  match select p iter n with
  | None => None
  | Some OutOfRange => Some (abstain iter)
  | Some (Block block) => Some (loop (categoryIdx p) block 0 iter)
  end.
End Processor.

Arguments Map D : clear implicits.
Arguments Calib D : clear implicits.
Arguments t D : clear implicits.
Arguments selection D : clear implicits.
End ProcNormalize.

(** ** Exact rational arithmetic as [double] *)

Definition Qltb (x y : Q) : bool := negb (Qle_bool y x).

(** The cast [(int)x] truncates toward zero. *)
Definition Qtrunc (x : Q) : Z := Z.quot (Qnum x) (Zpos (Qden x)).

(** The arithmetic of the rationals, for a given exponential: without
    rounding, infinities or NaN, and with [x / 0 = 0].  It only serves
    to run the processors on concrete events; what depends on the
    arithmetic of [double] is stated for [SFDouble] below. *)
Definition QDouble (exp : Q -> Q) : DoubleOps Q :=
  {| d_zero := 0%Q;
     d_one := 1%Q;
     d_tiny := (1 # 1000000000000000000000000000000)%Q;
     d_add := Qplus;
     d_sub := Qminus;
     d_mul := Qmult;
     d_div := Qdiv;
     d_ltb := Qltb;
     d_of_int := inject_Z;
     d_to_int := Qtrunc;
     d_exp := exp |}.

(** A rational stand-in for [std::exp] used to run the processors on
    concrete events: a power of a decimal approximation of e. *)
Definition Qexp_approx (x : Q) : Q :=
  Qpower (2718281828 # 1000000000) (Qfloor x).

(** ** IEEE 754 binary64 arithmetic as [double] *)

(** The doubles are the floats of [SpecFloat] with a precision of 53 bits
    and exponents below 1024: signed zeros and infinities, NaN, and the
    numbers [S754_finite s m e] of value [(-1)^s * m * 2^e].  The
    operations round to nearest, ties to even.  [valid_binary 53 1024]
    holds of the floats that are binary64 numbers, each in its one
    representation. *)

(** The exponent of the binary64 numbers of a magnitude. *)
Local Notation "'fexp64'" := (fexp 53 1024).

(** 1.0, 0.5 and the double nearest to 1e-30. *)
Definition SFunit : spec_float := S754_finite false 4503599627370496 (-52).
Definition SFhalf : spec_float := S754_finite false 4503599627370496 (-53).
Definition SFtiny : spec_float := S754_finite false 5708990770823840 (-152).

(** The cast [(int)x] truncates toward zero.  The cast of an infinity or
    of NaN is undefined: a value outside of the range of [int] stands
    for it. *)
Definition SFtrunc (x : spec_float) : Z :=
  match x with
  | S754_zero _ => 0
  | S754_finite s m e =>
      cond_Zopp s (match e with
                   | Zneg p => Zpos m / 2 ^ Zpos p
                   | _ => Zpos m * 2 ^ e
                   end)
  | S754_infinity _ | S754_nan => Machine.INT_MIN - 1
  end.

(** The binary64 arithmetic, for a given exponential. *)
Definition SFDouble (exp : spec_float -> spec_float) : DoubleOps spec_float :=
  {| d_zero := S754_zero false;
     d_one := SFunit;
     d_tiny := SFtiny;
     d_add := SFadd 53 1024;
     d_sub := SFsub 53 1024;
     d_mul := SFmul 53 1024;
     d_div := SFdiv 53 1024;
     d_ltb := SFltb;
     d_of_int := fun z => binary_normalize 53 1024 z 0 false;
     d_to_int := SFtrunc;
     d_exp := exp |}.

(** Whether a float is a number: neither an infinity nor NaN. *)
Definition SFfinite (x : spec_float) : bool :=
  match x with
  | S754_zero _ | S754_finite _ _ _ => true
  | S754_infinity _ | S754_nan => false
  end.

(** A stand-in for [std::exp] used to run the processors on concrete
    events.  For the integer [k] that the argument truncates to: 0 below
    -745 and infinity above 709, where [std::exp] underflows and
    overflows; otherwise 1.0 multiplied ([k >= 0]) or divided ([k < 0])
    [|k|] times by the double nearest to e. *)
Definition SFe : spec_float := S754_finite false 6121026514868073 (-51).

Definition SFexp_approx (x : spec_float) : spec_float :=
  match x with
  | S754_nan => S754_nan
  | S754_infinity s => if s then S754_zero false else S754_infinity false
  | _ =>
      let k := SFtrunc x in
      if k <? -745 then S754_zero false
      else if 709 <? k then S754_infinity false
      else if 0 <=? k
           then Nat.iter (Z.to_nat k) (fun y => SFmul 53 1024 y SFe) SFunit
           else Nat.iter (Z.to_nat (- k)) (fun y => SFdiv 53 1024 y SFe) SFunit
  end.

(** ** Vocabulary of the properties *)

Section Vocabulary.
Context {D : Type} `{DoubleOps D}.

(** The slots of an event other than the category slot: the list from
    index [i] on, without the slot whose index is [categoryIdx]. *)
Fixpoint others {A : Type} (categoryIdx i : Z) (slots : list A) : list A :=
  match slots with
  | [] => []
  | slot :: rest =>
      if i =? categoryIdx then rest
      else slot :: others categoryIdx (i + 1) rest
  end.

(** A cursor that has declared nothing yet, over [n] input slots. *)
Definition conf_begin (n : nat) : ConfIterator :=
  {| conf_todo := n; conf_inputs := []; conf_outputs := [] |}.

(** The slot count [n] passes the check
    [if ((int)n < categoryIdx + 1) return;]. *)
Definition accepts (categoryIdx n : Z) : bool :=
  negb (Machine.sint n <? categoryIdx + 1).

(** The divisor [n - 1] of [configure], an [unsigned int]. *)
Definition divisor (n : Z) : Z := Machine.uint (n - 1).
End Vocabulary.

(** ** Vocabulary of the likelihood properties *)

Section LikelihoodVocabulary.
Context {D : Type} `{DoubleOps D}.

(** The values of the slots, each with the entry of the block its slot is
    paired with: the first slot with the first entry, and so on. *)
Definition paired {P : Type} (block : list P) (slots : list (list D))
  : list (P * D) :=
  flat_map (fun '(slot, pdf) => map (pair pdf) slot) (combine slots block).

(** The clamped densities of a value. *)
Definition signalProb (x : ProcLikelihood.SigBkg D * D) : D :=
  d_max d_zero (ProcLikelihood.PDF_eval (ProcLikelihood.signal (fst x)) (snd x)).

Definition backgroundProb (x : ProcLikelihood.SigBkg D * D) : D :=
  d_max d_zero (ProcLikelihood.PDF_eval (ProcLikelihood.background (fst x)) (snd x)).

(** A value is informative unless its clamped densities sum to less than
    1e-30. *)
Definition informative (x : ProcLikelihood.SigBkg D * D) : bool :=
  negb (signalProb x + backgroundProb x <? d_tiny)%D.

(** The count of informative values, and the products of their clamped
    densities into [bias] and into 1.0, in the order of the values. *)
Definition count_of (l : list (ProcLikelihood.SigBkg D * D)) : Z :=
  Z.of_nat (length (filter informative l)).

Definition signal_of (bias : D) (l : list (ProcLikelihood.SigBkg D * D)) : D :=
  fold_left (fun s x => (s * signalProb x)%D) (filter informative l) bias.

Definition background_of (l : list (ProcLikelihood.SigBkg D * D)) : D :=
  fold_left (fun b x => (b * backgroundProb x)%D) (filter informative l) d_one.

(** One step of the accumulation, on a value with its PDF pair. *)
Definition visit (acc : Z * D * D) (x : ProcLikelihood.SigBkg D * D) : Z * D * D :=
  ProcLikelihood.accumulate (fst x) acc (snd x).

(** The underflow guard is breached. *)
Definition underflow (count : Z) (sig bkg : D) : bool :=
  (sig + bkg <? d_exp (d_of_int (-6 * count - 2)))%D.

(** The values of an event that [eval] visits with the block. *)
Definition visited (p : ProcLikelihood.t D) (block : list (ProcLikelihood.SigBkg D))
           (event : list (list D)) : list (ProcLikelihood.SigBkg D * D) :=
  paired block (others (ProcLikelihood.categoryIdx p) 0 event).
End LikelihoodVocabulary.

(** ** Vocabulary of the normalization properties *)

Section NormalizeVocabulary.
Context {D : Type} `{DoubleOps D}.

(** The outputs of maps paired in order with slots: for every map the
    images of the values of its slot, in order (of no value once the
    slots have run out). *)
Fixpoint normalized (block : list (ProcNormalize.Map D)) (slots : list (list D))
  : list (list D) :=
  match block with
  | [] => []
  | m :: rest =>
      map (fun v => spline_integral (ProcNormalize.spline m)
                      ((v - ProcNormalize.min m) / ProcNormalize.width m)%D)
          (hd [] slots)
      :: normalized rest (tl slots)
  end.
End NormalizeVocabulary.

(** ** Vocabulary of the configuration properties *)

(** The table size matches the slot count [n]: without a category slot
    the table has one entry per slot; with one, the slot count is at
    least 2, above [categoryIdx] and at most [INT_MAX], and the table, of
    fewer than 2^32 entries, is a whole number of blocks of [n - 1]
    entries. *)
Definition shape_matches (size categoryIdx n : Z) : Prop :=
  (categoryIdx < 0 /\ n = size) \/
  (0 <= categoryIdx < n /\ 2 <= n <= Machine.INT_MAX /\
   size < Machine.UINT_MOD /\ exists k, size = k * (n - 1)).

(** The number of categories [configure] leaves in the processor when
    the shape matches. *)
Definition categories_of (size categoryIdx n nCategories : Z) : Z :=
  if categoryIdx <? 0 then nCategories else size / (n - 1).

(** The arity declared for input slot [k]. *)
Definition input_flags (categoryIdx : Z) (k : nat) : Flags :=
  if categoryIdx =? Z.of_nat k then FLAG_NONE else FLAG_ALL.

(** ** Vocabulary of the block properties *)

Section BlockVocabulary.
Context {D : Type} `{DoubleOps D}.

(** The likelihood processor without categories whose table is one
    block, with the bias of [p]. *)
Definition block_likelihood (p : ProcLikelihood.t D)
           (block : list (ProcLikelihood.SigBkg D)) : ProcLikelihood.t D :=
  {| ProcLikelihood.pdfs := block;
     ProcLikelihood.categoryIdx := -1;
     ProcLikelihood.nCategories := 1;
     ProcLikelihood.bias := ProcLikelihood.bias p |}.

(** The normalization processor without categories whose table is one
    block. *)
Definition block_normalizer (block : list (ProcNormalize.Map D)) : ProcNormalize.t D :=
  {| ProcNormalize.maps := block;
     ProcNormalize.categoryIdx := -1;
     ProcNormalize.nCategories := 1 |}.

(** A PDF pair with signal and background exchanged, the processor with
    every pair of its table exchanged, and a value with its PDF pair
    exchanged. *)
Definition swap (x : ProcLikelihood.SigBkg D) : ProcLikelihood.SigBkg D :=
  {| ProcLikelihood.signal := ProcLikelihood.background x;
     ProcLikelihood.background := ProcLikelihood.signal x |}.

Definition swapped (p : ProcLikelihood.t D) : ProcLikelihood.t D :=
  {| ProcLikelihood.pdfs := map swap (ProcLikelihood.pdfs p);
     ProcLikelihood.categoryIdx := ProcLikelihood.categoryIdx p;
     ProcLikelihood.nCategories := ProcLikelihood.nCategories p;
     ProcLikelihood.bias := ProcLikelihood.bias p |}.

Definition swap_visited (x : ProcLikelihood.SigBkg D * D) : ProcLikelihood.SigBkg D * D :=
  (swap (fst x), snd x).
End BlockVocabulary.

(** ** Vocabulary of the binary64 properties *)

(** The number of bits a rounding drops from a mantissa [m] with
    exponent [e]. *)
Definition shift_of (m e : Z) : Z := Z.max 0 (fexp64 (Zdigits2 m + e) - e).

(** The last step of a rounding: the float of a sign, a mantissa and an
    exponent. *)
Definition finish (sx : bool) (m e : Z) : spec_float :=
  match m with
  | Z0 => S754_zero sx
  | Zpos p => if e <=? 971 then S754_finite sx p e else S754_infinity sx
  | Zneg _ => S754_nan
  end.




(** ** Concrete processors and events *)

Module Examples.

(** The rational arithmetic with the stand-in exponential. *)
Definition QD : DoubleOps Q := QDouble Qexp_approx.

(** A histogram PDF with one bin whose density is [c] everywhere. *)
Definition flat_pdf (c : Q) : ProcLikelihood.PDF Q :=
  ProcLikelihood.HistogramPDF
    {| range_min := 0%Q; range_width := 1%Q; histo_values := [];
       numberOfBins := 1; normalizedValue := fun _ => c |}.

Definition flat (s b : Q) : ProcLikelihood.SigBkg Q :=
  {| ProcLikelihood.signal := flat_pdf s;
     ProcLikelihood.background := flat_pdf b |}.

Definition likelihood (pdfs : list (ProcLikelihood.SigBkg Q))
           (categoryIdx nCategories : Z) (bias : Q) : ProcLikelihood.t Q :=
  {| ProcLikelihood.pdfs := pdfs;
     ProcLikelihood.categoryIdx := categoryIdx;
     ProcLikelihood.nCategories := nCategories;
     ProcLikelihood.bias := bias |}.

(** A curve whose cumulative integral is the identity. *)
Definition ramp : Spline Q :=
  {| spline_eval := fun _ => 1%Q;
     spline_integral := fun u => u;
     spline_numberOfEntries := 1;
     spline_getArea := 1%Q |}.

(** The map of the range from [lo] of width [w] with the curve [ramp]. *)
Definition ramp_map (lo w : Q) : ProcNormalize.Map Q :=
  {| ProcNormalize.min := lo; ProcNormalize.width := w;
     ProcNormalize.spline := ramp |}.

Definition normalizer (maps : list (ProcNormalize.Map Q))
           (categoryIdx nCategories : Z) : ProcNormalize.t Q :=
  {| ProcNormalize.maps := maps;
     ProcNormalize.categoryIdx := categoryIdx;
     ProcNormalize.nCategories := nCategories |}.

(** A likelihood processor and a normalization processor whose category
    slot is slot 1, with one category, and an event whose category slot
    holds 0 and whose other slot holds 7. *)
Definition likelihood_cat1 : ProcLikelihood.t Q :=
  likelihood [flat (4 # 5) (1 # 5)] 1 1 1%Q.

Definition normalizer_cat1 : ProcNormalize.t Q :=
  normalizer [ramp_map 0 10] 1 1.

Definition event_cat1 : list (list Q) := [[7%Q]; [0%Q]].

(** A normalization processor whose category slot is slot 0, with one
    category, and an event whose category value 5 is out of range. *)
Definition normalizer_cat0 : ProcNormalize.t Q :=
  normalizer [ramp_map 0 1] 0 1.

Definition event_cat5 : list (list Q) := [[5%Q]; [1 # 2]].

(** Processors whose category slot is slot 0, with one entry and with
    five entries in their tables. *)
Definition likelihood_cat0 : ProcLikelihood.t Q :=
  likelihood [flat (4 # 5) (1 # 5)] 0 1 1%Q.

Definition likelihood_five : ProcLikelihood.t Q :=
  likelihood (repeat (flat (4 # 5) (1 # 5)) 5) 0 1 1%Q.

Definition normalizer_five : ProcNormalize.t Q :=
  normalizer (repeat (ramp_map 0 1) 5) 0 1.

Definition event_cat0 : list (list Q) := [[0%Q]; [1 # 2]].

(** The likelihood processor of two variables without categories, bias 1,
    signal density 0.8 and background density 0.2, and an event with one
    value for each variable. *)
Definition likelihood_two : ProcLikelihood.t Q :=
  likelihood [flat (4 # 5) (1 # 5); flat (4 # 5) (1 # 5)] (-1) 1 1%Q.

Definition event_two : list (list Q) := [[0%Q]; [0%Q]].

(** A normalization processor of one variable over the range from 0 to
    10, and an event with no, one and two values for it. *)
Definition normalizer_plain : ProcNormalize.t Q :=
  normalizer [ramp_map 0 10] (-1) 1.

Definition event_none : list (list Q) := [[]].
Definition event_pair : list (list Q) := [[5%Q; 10%Q]].

(** A likelihood processor of two variables whose second PDF pair has no
    density anywhere, and an event without a value for the second
    variable. *)
Definition likelihood_blind : ProcLikelihood.t Q :=
  likelihood [flat (4 # 5) (1 # 5); flat 0 0] (-1) 1 1%Q.

Definition event_first_only : list (list Q) := [[0%Q]; []].

(** The binary64 arithmetic with the stand-in exponential. *)
Definition SD : DoubleOps spec_float := SFDouble SFexp_approx.

(** In binary64: a histogram PDF with one bin whose density is [c]
    everywhere, a PDF pair, and the likelihood processor without
    categories of a table and a bias. *)
Definition flat64_pdf (c : spec_float) : ProcLikelihood.PDF spec_float :=
  ProcLikelihood.HistogramPDF
    {| range_min := S754_zero false; range_width := SFunit; histo_values := [];
       numberOfBins := 1; normalizedValue := fun _ => c |}.

Definition flat64 (s b : spec_float) : ProcLikelihood.SigBkg spec_float :=
  {| ProcLikelihood.signal := flat64_pdf s;
     ProcLikelihood.background := flat64_pdf b |}.

Definition likelihood64 (pdfs : list (ProcLikelihood.SigBkg spec_float))
           (bias : spec_float) : ProcLikelihood.t spec_float :=
  {| ProcLikelihood.pdfs := pdfs;
     ProcLikelihood.categoryIdx := -1;
     ProcLikelihood.nCategories := 1;
     ProcLikelihood.bias := bias |}.

Definition four_fifths : spec_float := S754_finite false 7205759403792794 (-53).
Definition one_fifth : spec_float := S754_finite false 7205759403792794 (-55).
Definition pow2_m13 : spec_float := S754_finite false 4503599627370496 (-65).
Definition pow2_1023 : spec_float := S754_finite false 4503599627370496 971.

(** An event with one value, and an event with 130 values, for one
    variable. *)
Definition event64_one : list (list spec_float) := [[S754_zero false]].



Definition likelihood64_small : ProcLikelihood.t spec_float :=
  likelihood64 [flat64 pow2_m13 pow2_m13] SFunit.

Definition likelihood64_large : ProcLikelihood.t spec_float :=
  likelihood64 [flat64 pow2_1023 pow2_1023] SFunit.

Definition likelihood64_even : ProcLikelihood.t spec_float :=
  likelihood64 [flat64 SFhalf SFhalf] SFunit.

(** The likelihood processor of one variable with bias 1, signal
    density 0.8 and background density 0.2. *)
Definition likelihood64_one : ProcLikelihood.t spec_float :=
  likelihood64 [flat64 four_fifths one_fifth] SFunit.

(** A builder of curves that only keeps the number of control points, a
    calibration histogram with two bins between its underflow and its
    overflow bin, and calibrations made of it. *)
Definition count_spline : SplineSet Q :=
  fun bins =>
    {| spline_eval := fun _ => 1%Q;
       spline_integral := fun u => u;
       spline_numberOfEntries := Z.of_nat (length bins);
       spline_getArea := 1%Q |}.

Definition histogram : HistogramF Q :=
  {| range_min := 0%Q; range_width := 10%Q;
     histo_values := [0%Q; 1%Q; 3%Q; 0%Q];
     numberOfBins := 2;
     normalizedValue := fun _ => (1 # 2)%Q |}.

Definition calib_likelihood : ProcLikelihood.Calib Q :=
  {| ProcLikelihood.calib_pdfs :=
       [{| ProcLikelihood.calib_signal := histogram;
           ProcLikelihood.calib_background := histogram;
           ProcLikelihood.useSplines := true |}];
     ProcLikelihood.calib_categoryIdx := -1;
     ProcLikelihood.calib_bias := 1%Q |}.

Definition calib_normalize : ProcNormalize.Calib Q :=
  {| ProcNormalize.distr := [histogram];
     ProcNormalize.calib_categoryIdx := -1 |}.

End Examples.

(** * Properties *)

(** ** Machine integers: facts *)

Lemma uint_small (z : Z) : 0 <= z < Machine.UINT_MOD -> Machine.uint z = z.
Proof. intros Hz. unfold Machine.uint. now apply Z.mod_small. Qed.

Lemma uint_range (z : Z) : 0 <= Machine.uint z < Machine.UINT_MOD.
Proof. unfold Machine.uint. apply Z.mod_pos_bound. reflexivity. Qed.

Lemma is_int_true (z : Z) :
  Machine.is_int z = true -> Machine.INT_MIN <= z <= Machine.INT_MAX.
Proof. unfold Machine.is_int. rewrite andb_true_iff, !Z.leb_le. tauto. Qed.

Lemma uint_of_nonneg_int (z : Z) :
  Machine.is_int z = true -> 0 <= z -> Machine.uint z = z.
Proof.
  intros Hi Hz. apply is_int_true in Hi. apply uint_small.
  unfold Machine.INT_MAX, Machine.UINT_MOD in *. lia.
Qed.

(** The product the divisibility check computes differs from the table
    size whenever the divisor does not divide it, wrap-around included. *)
Lemma check_detects_remainder (size d : Z) :
  0 <= size -> 0 < d -> size mod d <> 0 ->
  Machine.uint (Machine.uint (size / d) * d) <> size.
Proof.
  intros Hs Hd Hr.
  assert (Hq : 0 <= size / d) by (apply Z.div_pos; lia).
  assert (Hdiv : size = d * (size / d) + size mod d) by (apply Z.div_mod; lia).
  assert (Hm : 0 <= size mod d < d) by (apply Z.mod_pos_bound; lia).
  destruct (Z_lt_le_dec size Machine.UINT_MOD) as [Hlt | Hge].
  - assert (Hq' : size / d < Machine.UINT_MOD).
    { apply Z.le_lt_trans with size; [ | exact Hlt ].
      apply Z.div_le_upper_bound; nia. }
    rewrite (uint_small (size / d)) by lia.
    rewrite uint_small by nia. nia.
  - pose proof (uint_range (Machine.uint (size / d) * d)). lia.
Qed.

(** ** configure *)

Section Configure.
Context {D : Type} `{DoubleOps D}.

Lemma likelihood_configure_rejects (p : ProcLikelihood.t D) (iter : ConfIterator) (n : Z) :
  0 <= ProcLikelihood.categoryIdx p ->
  divisor n <> 0 ->
  Z.of_nat (length (ProcLikelihood.pdfs p)) mod divisor n <> 0 ->
  exists p', ProcLikelihood.configure p iter n = Some (p', iter).
Proof.
  intros Hc Hd Hr. unfold ProcLikelihood.configure.
  apply Z.leb_le in Hc. rewrite Hc.
  destruct (Machine.sint n <? _); [ now exists p | ].
  fold (divisor n). apply Z.eqb_neq in Hd. rewrite Hd.
  apply Z.eqb_neq in Hd. cbn [ProcLikelihood.nCategories ProcLikelihood.set_nCategories].
  pose proof (uint_range (n - 1)) as Hu. fold (divisor n) in Hu.
  destruct (Z.eqb_spec
              (Machine.uint (Machine.uint (Z.of_nat (length (ProcLikelihood.pdfs p)) / divisor n)
                             * divisor n))
              (Z.of_nat (length (ProcLikelihood.pdfs p)))) as [He | He].
  - exfalso. revert He. apply check_detects_remainder; lia.
  - cbn. eauto.
Qed.

Lemma normalize_configure_rejects (p : ProcNormalize.t D) (iter : ConfIterator) (n : Z) :
  0 <= ProcNormalize.categoryIdx p ->
  divisor n <> 0 ->
  Z.of_nat (length (ProcNormalize.maps p)) mod divisor n <> 0 ->
  exists p', ProcNormalize.configure p iter n = Some (p', iter).
Proof.
  intros Hc Hd Hr. unfold ProcNormalize.configure.
  apply Z.leb_le in Hc. rewrite Hc.
  destruct (Machine.sint n <? _); [ now exists p | ].
  fold (divisor n). apply Z.eqb_neq in Hd. rewrite Hd.
  apply Z.eqb_neq in Hd. cbn [ProcNormalize.nCategories ProcNormalize.set_nCategories].
  pose proof (uint_range (n - 1)) as Hu. fold (divisor n) in Hu.
  destruct (Z.eqb_spec
              (Machine.uint (Machine.uint (Z.of_nat (length (ProcNormalize.maps p)) / divisor n)
                             * divisor n))
              (Z.of_nat (length (ProcNormalize.maps p)))) as [He | He].
  - exfalso. revert He. apply check_detects_remainder; lia.
  - cbn. eauto.
Qed.

(** Without categories a table whose size is not the slot count is
    rejected, and nothing is declared. *)
Lemma configure_rejects_uncategorized
      (pl : ProcLikelihood.t D) (pn : ProcNormalize.t D) (iter : ConfIterator) (n : Z) :
  (ProcLikelihood.categoryIdx pl < 0 ->
   n <> Z.of_nat (length (ProcLikelihood.pdfs pl)) ->
   ProcLikelihood.configure pl iter n = Some (pl, iter)) /\
  (ProcNormalize.categoryIdx pn < 0 ->
   n <> Z.of_nat (length (ProcNormalize.maps pn)) ->
   ProcNormalize.configure pn iter n = Some (pn, iter)).
Proof.
  split; intros Hc Hn.
  - unfold ProcLikelihood.configure.
    apply Z.leb_gt in Hc. rewrite Hc.
    apply Z.eqb_neq in Hn. now rewrite Hn.
  - unfold ProcNormalize.configure.
    apply Z.leb_gt in Hc. rewrite Hc.
    apply Z.eqb_neq in Hn. now rewrite Hn.
Qed.

(** With a category slot and at least two slots, a table whose size is
    not a multiple of [n - 1] is rejected, and nothing is declared. *)
Lemma configure_rejects_categorized
      (pl : ProcLikelihood.t D) (pn : ProcNormalize.t D) (iter : ConfIterator) (n : Z) :
  divisor n <> 0 ->
  (0 <= ProcLikelihood.categoryIdx pl ->
   (forall k, Z.of_nat (length (ProcLikelihood.pdfs pl)) <> k * divisor n) ->
   exists pl', ProcLikelihood.configure pl iter n = Some (pl', iter)) /\
  (0 <= ProcNormalize.categoryIdx pn ->
   (forall k, Z.of_nat (length (ProcNormalize.maps pn)) <> k * divisor n) ->
   exists pn', ProcNormalize.configure pn iter n = Some (pn', iter)).
Proof.
  intros Hd. split; intros Hc Hk.
  - apply likelihood_configure_rejects; trivial.
    intros Hm. apply Z.mod_divide in Hm; [ | exact Hd ].
    destruct Hm as [k Hm]. now apply (Hk k).
  - apply normalize_configure_rejects; trivial.
    intros Hm. apply Z.mod_divide in Hm; [ | exact Hd ].
    destruct Hm as [k Hm]. now apply (Hk k).
Qed.
End Configure.

Section ConfigureClaims.
Context {D : Type} `{DoubleOps D}.

(** C3.  The check [(int)n < categoryIdx + 1] does not keep the divisor
    [n - 1] away from zero: for every processor whose category slot is
    slot 0, the slot count [n = 1] passes the check, the divisor is 0 and
    [configure] of either processor divides by zero. *)
Theorem configure_divides_by_zero
        (pl : ProcLikelihood.t D) (pn : ProcNormalize.t D) (iter : ConfIterator) :
  ProcLikelihood.categoryIdx pl = 0 ->
  ProcNormalize.categoryIdx pn = 0 ->
  accepts 0 1 = true /\ divisor 1 = 0 /\
  ProcLikelihood.configure pl iter 1 = None /\
  ProcNormalize.configure pn iter 1 = None.
Proof.
  intros Hl Hn. repeat split.
  - unfold ProcLikelihood.configure. now rewrite Hl.
  - unfold ProcNormalize.configure. now rewrite Hn.
Qed.

(** C7.  With the category slot at index 0 and [n = 1] a table of size 5
    is not a multiple of [n - 1], yet [configure] of either processor does
    not return: it divides by zero. *)
Theorem configure_mismatch_divides_by_zero
        (x : ProcLikelihood.SigBkg D) (bias : D) (m : ProcNormalize.Map D)
        (iter : ConfIterator) :
  (forall k, 5 <> k * divisor 1) /\
  ProcLikelihood.configure
    {| ProcLikelihood.pdfs := repeat x 5; ProcLikelihood.categoryIdx := 0;
       ProcLikelihood.nCategories := 1; ProcLikelihood.bias := bias |}
    iter 1 = None /\
  ProcNormalize.configure
    {| ProcNormalize.maps := repeat m 5; ProcNormalize.categoryIdx := 0;
       ProcNormalize.nCategories := 1 |}
    iter 1 = None.
Proof.
  repeat split. intros k. change (divisor 1) with 0. lia.
Qed.

(** C10, amended.  When [configure] of either processor reaches the
    divisibility check and the check fails, it returns with nothing
    declared and with [nCategories] overwritten by the quotient of the
    table size by [n - 1] (the truncated quotient itself when the size
    fits an [unsigned int]).  The field is left at its prior value
    exactly when that quotient is the prior value. *)
Theorem configure_failed_check_overwrites_nCategories
        (pl : ProcLikelihood.t D) (pn : ProcNormalize.t D) (iter : ConfIterator) (n : Z) :
  (let size := Z.of_nat (length (ProcLikelihood.pdfs pl)) in
   0 <= ProcLikelihood.categoryIdx pl ->
   accepts (ProcLikelihood.categoryIdx pl) n = true ->
   divisor n <> 0 ->
   Machine.uint (Machine.uint (size / divisor n) * divisor n) <> size ->
   exists pl',
     ProcLikelihood.configure pl iter n = Some (pl', iter) /\
     ProcLikelihood.nCategories pl' = Machine.uint (size / divisor n) /\
     (size < Machine.UINT_MOD -> ProcLikelihood.nCategories pl' = size / divisor n) /\
     (ProcLikelihood.nCategories pl' = ProcLikelihood.nCategories pl
      <-> ProcLikelihood.nCategories pl = Machine.uint (size / divisor n))) /\
  (let size := Z.of_nat (length (ProcNormalize.maps pn)) in
   0 <= ProcNormalize.categoryIdx pn ->
   accepts (ProcNormalize.categoryIdx pn) n = true ->
   divisor n <> 0 ->
   Machine.uint (Machine.uint (size / divisor n) * divisor n) <> size ->
   exists pn',
     ProcNormalize.configure pn iter n = Some (pn', iter) /\
     ProcNormalize.nCategories pn' = Machine.uint (size / divisor n) /\
     (size < Machine.UINT_MOD -> ProcNormalize.nCategories pn' = size / divisor n) /\
     (ProcNormalize.nCategories pn' = ProcNormalize.nCategories pn
      <-> ProcNormalize.nCategories pn = Machine.uint (size / divisor n))).
Proof.
  assert (Hq : forall size, 0 <= size -> divisor n <> 0 -> size < Machine.UINT_MOD ->
                            Machine.uint (size / divisor n) = size / divisor n).
  { intros size Hs Hd Hlt. pose proof (uint_range (n - 1)) as Hu.
    fold (divisor n) in Hu. apply uint_small. split.
    - apply Z.div_pos; lia.
    - apply Z.le_lt_trans with size; [ | exact Hlt ].
      apply Z.div_le_upper_bound; nia. }
  split; intros size Hc Ha Hd Hk.
  - exists (ProcLikelihood.set_nCategories (Machine.uint (size / divisor n)) pl).
    repeat split.
    + unfold ProcLikelihood.configure. fold size.
      apply Z.leb_le in Hc. rewrite Hc.
      unfold accepts in Ha. apply negb_true_iff in Ha. rewrite Ha.
      fold (divisor n). apply Z.eqb_neq in Hd. rewrite Hd.
      cbn [ProcLikelihood.nCategories ProcLikelihood.set_nCategories].
      apply Z.eqb_neq in Hk. now rewrite Hk.
    + intros Hlt. cbn. apply Hq; trivial. subst size. lia.
    + cbn. congruence.
    + cbn. congruence.
  - exists (ProcNormalize.set_nCategories (Machine.uint (size / divisor n)) pn).
    repeat split.
    + unfold ProcNormalize.configure. fold size.
      apply Z.leb_le in Hc. rewrite Hc.
      unfold accepts in Ha. apply negb_true_iff in Ha. rewrite Ha.
      fold (divisor n). apply Z.eqb_neq in Hd. rewrite Hd.
      cbn [ProcNormalize.nCategories ProcNormalize.set_nCategories].
      apply Z.eqb_neq in Hk. now rewrite Hk.
    + intros Hlt. cbn. apply Hq; trivial. subst size. lia.
    + cbn. congruence.
    + cbn. congruence.
Qed.
End ConfigureClaims.

(** ** The loops of eval, one iteration at a time *)

Section Iterations.
Context {D : Type} `{DoubleOps D}.

(** One iteration of [for(int i = 0; pdf != last; ++iter, i++)] of
    [ProcLikelihood::eval]: with [i == categoryIdx] it goes on with the
    same [pdf], otherwise with the next one after the values of the
    slot. *)
Lemma likelihood_loop_iteration (c : Z) (pdf : ProcLikelihood.SigBkg D)
      (rest : list (ProcLikelihood.SigBkg D)) (i : Z) (iter : ValueIterator D)
      (acc : Z * D * D) :
  ProcLikelihood.loop c (pdf :: rest) i iter acc
  = if i =? c
    then ProcLikelihood.loop c (pdf :: rest) (i + 1) (next iter) acc
    else ProcLikelihood.loop c rest (i + 1) (next iter)
                             (fold_left (ProcLikelihood.accumulate pdf) (values iter) acc).
Proof.
  cbn [ProcLikelihood.loop]. destruct (Z.eqb_spec i c) as [-> | Hne]; trivial.
  destruct (Z.eqb_spec (c + 1) c); [ lia | reflexivity ].
Qed.

(** One iteration of the loop of [ProcNormalize::eval]. *)
Lemma normalize_loop_iteration (c : Z) (m : ProcNormalize.Map D)
      (rest : list (ProcNormalize.Map D)) (i : Z) (iter : ValueIterator D) :
  ProcNormalize.loop c (m :: rest) i iter
  = if i =? c
    then ProcNormalize.loop c (m :: rest) (i + 1) (next iter)
    else ProcNormalize.loop c rest (i + 1)
                            (next (close (fold_left (ProcNormalize.transform m)
                                                    (values iter) iter))).
Proof.
  cbn [ProcNormalize.loop]. destruct (Z.eqb_spec i c) as [-> | Hne]; trivial.
  destruct (Z.eqb_spec (c + 1) c); [ lia | reflexivity ].
Qed.

(** One iteration of [for(; iter; ++iter) iter();]. *)
Lemma abstain_iteration (iter : ValueIterator D) :
  ProcNormalize.abstain iter
  = if valid iter then ProcNormalize.abstain (next (close iter)) else iter.
Proof.
  unfold ProcNormalize.abstain, valid. destruct iter as [[ | s sl ] pe ou]; reflexivity.
Qed.

(** Both constructors start with one category. *)
Lemma new_nCategories `{SplineSet D}
      (cl : ProcLikelihood.Calib D) (cn : ProcNormalize.Calib D) :
  ProcLikelihood.nCategories (ProcLikelihood.new cl) = 1 /\
  ProcNormalize.nCategories (ProcNormalize.new cn) = 1.
Proof. split; reflexivity. Qed.
End Iterations.

(** ** The slots other than the category slot *)

Section Others.
Context {A : Type}.

Lemma others_past (c i : Z) (l : list A) : c < i -> others c i l = l.
Proof.
  revert i. induction l as [ | x l IH ]; intros i Hi; cbn; trivial.
  destruct (Z.eqb_spec i c); [ lia | ]. now rewrite IH by lia.
Qed.

Lemma others_negative (c : Z) (l : list A) : c < 0 -> others c 0 l = l.
Proof. apply others_past. Qed.

(** [others] removes the slot at distance [c - i] of the head. *)
Lemma others_remove (c i : Z) (l : list A) :
  i <= c ->
  others c i l = firstn (Z.to_nat (c - i)) l ++ skipn (S (Z.to_nat (c - i))) l.
Proof.
  revert i. induction l as [ | x l IH ]; intros i Hi.
  - now rewrite firstn_nil, skipn_nil.
  - cbn [others]. destruct (Z.eqb_spec i c) as [-> | Hne].
    + now rewrite Z.sub_diag.
    + rewrite IH by lia.
      replace (Z.to_nat (c - i)) with (S (Z.to_nat (c - (i + 1)))) by lia.
      reflexivity.
Qed.

Lemma others_length (c i : Z) (l : list A) :
  (length l - 1 <= length (others c i l) <= length l)%nat.
Proof.
  revert i. induction l as [ | x l IH ]; intros i; cbn; [ lia | ].
  destruct (i =? c); cbn; [ lia | ]. specialize (IH (i + 1)). lia.
Qed.
End Others.

(** ** ProcLikelihood.eval *)

Section LikelihoodEval.
Context {D : Type} `{DoubleOps D}.

Lemma paired_nil_slots {P : Type} (block : list P) :
  paired block (@nil (list D)) = [].
Proof. reflexivity. Qed.

Lemma paired_nil_block {P : Type} (slots : list (list D)) :
  paired (@nil P) slots = [].
Proof. unfold paired. now rewrite combine_nil. Qed.

Lemma paired_cons {P : Type} (x : P) (block : list P) (slot : list D)
      (slots : list (list D)) :
  paired (x :: block) (slot :: slots) = map (pair x) slot ++ paired block slots.
Proof. reflexivity. Qed.

Lemma fold_accumulate (pdf : ProcLikelihood.SigBkg D) (slot : list D) (acc : Z * D * D) :
  fold_left (ProcLikelihood.accumulate pdf) slot acc
  = fold_left visit (map (pair pdf) slot) acc.
Proof.
  revert acc. induction slot as [ | v slot IH ]; intros acc; cbn; auto.
Qed.

(** The loop of [eval] accumulates over the values of the slots other
    than the category slot, each slot with its entry of the block, and
    leaves the outputs of the cursor alone. *)
Lemma likelihood_loop (c : Z) (block : list (ProcLikelihood.SigBkg D)) :
  forall (i : Z) (iter : ValueIterator D) (acc : Z * D * D),
    let r := ProcLikelihood.loop c block i iter acc in
    snd r = fold_left visit (paired block (others c i (slots iter))) acc /\
    outputs (fst r) = outputs iter /\ pending (fst r) = pending iter.
Proof.
  induction block as [ | pdf rest IH ]; intros i iter acc.
  - cbn. now rewrite paired_nil_block.
  - cbn [ProcLikelihood.loop]. destruct iter as [sl pe ou]. cbn [slots].
    destruct (Z.eqb_spec i c) as [-> | Hne].
    + destruct sl as [ | s [ | s2 r2 ] ]; cbn [others];
        rewrite ?Z.eqb_refl.
      * specialize (IH (c + 1 + 1) (next (next (@Build_ValueIterator D [] pe ou))) acc).
        cbn in *. exact IH.
      * specialize (IH (c + 1 + 1) (next (next (@Build_ValueIterator D [s] pe ou))) acc).
        cbn in *. exact IH.
      * specialize (IH (c + 1 + 1)
                       (next (next (@Build_ValueIterator D (s :: s2 :: r2) pe ou)))
                       (fold_left (ProcLikelihood.accumulate pdf) s2 acc)).
        cbn [next slots tl pending outputs values hd] in *.
        rewrite others_past in IH by lia.
        rewrite paired_cons, fold_left_app, <- fold_accumulate. exact IH.
    + destruct sl as [ | s r ]; cbn [others].
      * specialize (IH (i + 1) (next (@Build_ValueIterator D [] pe ou)) acc).
        cbn in *. exact IH.
      * apply Z.eqb_neq in Hne. rewrite Hne.
        specialize (IH (i + 1) (next (@Build_ValueIterator D (s :: r) pe ou))
                       (fold_left (ProcLikelihood.accumulate pdf) s acc)).
        cbn [next slots tl pending outputs values hd] in *.
        rewrite paired_cons, fold_left_app, <- fold_accumulate. exact IH.
Qed.
End LikelihoodEval.

Section LikelihoodDecision.
Context {D : Type} `{DoubleOps D}.

(** The accumulators after a list of values: the count grows by the
    number of informative values, and the products take their clamped
    densities in order. *)
Lemma fold_visit (l : list (ProcLikelihood.SigBkg D * D)) :
  forall (vars : Z) (sig bkg : D),
    fold_left visit l (vars, sig, bkg)
    = (vars + Z.of_nat (length (filter informative l)),
       fold_left (fun s x => (s * signalProb x)%D) (filter informative l) sig,
       fold_left (fun b x => (b * backgroundProb x)%D) (filter informative l) bkg).
Proof.
  induction l as [ | x l IH ]; intros vars sig bkg.
  - cbn. now rewrite Z.add_0_r.
  - cbn [fold_left filter].
    assert (Hv : visit (vars, sig, bkg) x
                 = if informative x
                   then (vars + 1, (sig * signalProb x)%D, (bkg * backgroundProb x)%D)
                   else (vars, sig, bkg)).
    { unfold visit, ProcLikelihood.accumulate, informative, signalProb, backgroundProb.
      destruct (_ <? _)%D; reflexivity. }
    rewrite Hv. destruct (informative x).
    + rewrite IH. cbn [length fold_left]. do 2 f_equal. lia.
    + apply IH.
Qed.

Lemma likelihood_eval_block (p : ProcLikelihood.t D) (event : list (list D)) (n : Z)
      (block : list (ProcLikelihood.SigBkg D)) :
  ProcLikelihood.select p (cursor event) n = Some (ProcLikelihood.Block block) ->
  let l := visited p block event in
  exists iter,
    outputs iter = [] /\ pending iter = [] /\
    ProcLikelihood.eval p (cursor event) n
    = Some (ProcLikelihood.conclude
              iter (count_of l, signal_of (ProcLikelihood.bias p) l, background_of l)).
Proof.
  intros Hsel l. unfold ProcLikelihood.eval. rewrite Hsel.
  pose proof (likelihood_loop (ProcLikelihood.categoryIdx p) block 0 (cursor event)
                              (0, ProcLikelihood.bias p, d_one)) as Hloop.
  destruct (ProcLikelihood.loop _ block 0 (cursor event) _) as [iter acc].
  cbn [fst snd cursor slots outputs pending] in Hloop.
  destruct Hloop as (Hacc & Hout & Hpen).
  exists iter. repeat split; trivial.
  rewrite Hacc, fold_visit. reflexivity.
Qed.

(** C2.  When [eval] selects a block, with the count, signal and
    background of the values it visits: it abstains (one empty output)
    if and only if the count is 0 or [signal + background] is below
    [exp(-6*count - 2)], and otherwise its only output is the single
    value [signal / (signal + background)]. *)
Theorem likelihood_abstains_iff_uninformative_or_underflow
        (p : ProcLikelihood.t D) (event : list (list D)) (n : Z)
        (block : list (ProcLikelihood.SigBkg D)) :
  ProcLikelihood.select p (cursor event) n = Some (ProcLikelihood.Block block) ->
  let l := visited p block event in
  let count := count_of l in
  let sig := signal_of (ProcLikelihood.bias p) l in
  let bkg := background_of l in
  exists iter',
    ProcLikelihood.eval p (cursor event) n = Some iter' /\
    (outputs iter' = [[]]
     <-> count = 0 \/ (sig + bkg <? d_exp (d_of_int (-6 * count - 2)))%D = true) /\
    (~ (count = 0 \/ (sig + bkg <? d_exp (d_of_int (-6 * count - 2)))%D = true)
     -> outputs iter' = [[(sig / (sig + bkg))%D]]).
Proof.
  intros Hsel l count sig bkg.
  destruct (likelihood_eval_block p event n block Hsel) as (iter & Hout & Hpen & Heval).
  eexists. split; [ exact Heval | ].
  fold l count sig bkg. unfold ProcLikelihood.conclude.
  destruct (Z.eqb_spec count 0) as [Hz | Hz]; cbn [orb].
  - cbn. rewrite Hout, Hpen. cbn. split; [ tauto | ]. intros Hn. tauto.
  - destruct (sig + bkg <? d_exp (d_of_int (-6 * count - 2)))%D.
    + cbn. rewrite Hout, Hpen. cbn. split; [ tauto | ]. intros Hn. tauto.
    + cbn. rewrite Hout, Hpen. cbn. split.
      * split; [ discriminate | ]. intros [ Hc | Hc ]; [ contradiction | discriminate ].
      * reflexivity.
Qed.
End LikelihoodDecision.

(** ** ProcNormalize.eval *)

Section NormalizeEval.
Context {D : Type} `{DoubleOps D}.

Lemma fold_transform (m : ProcNormalize.Map D) (slot : list D) :
  forall iter : ValueIterator D,
    fold_left (ProcNormalize.transform m) slot iter
    = {| slots := slots iter;
         pending := pending iter ++ map (ProcNormalize.normalize m) slot;
         outputs := outputs iter |}.
Proof.
  induction slot as [ | v slot IH ]; intros [sl pe ou]; cbn.
  - now rewrite app_nil_r.
  - rewrite IH. cbn. now rewrite <- app_assoc.
Qed.

(** The loop of [eval] completes one output per map of the block, with
    the images of the values of the slot the map is paired with. *)
Lemma normalize_loop (c : Z) (block : list (ProcNormalize.Map D)) :
  forall (i : Z) (iter : ValueIterator D),
    pending iter = [] ->
    outputs (ProcNormalize.loop c block i iter)
    = outputs iter ++ normalized block (others c i (slots iter)).
Proof.
  induction block as [ | m rest IH ]; intros i [sl pe ou] Hpe;
    cbn [slots pending outputs] in *; subst pe.
  - cbn. now rewrite app_nil_r.
  - rewrite normalize_loop_iteration. cbn [normalized].
    destruct (Z.eqb_spec i c) as [-> | Hne].
    + rewrite normalize_loop_iteration.
      destruct (Z.eqb_spec (c + 1) c) as [ | _ ]; [ lia | ].
      rewrite fold_transform.
      rewrite IH by reflexivity.
      cbn [next close slots pending outputs values].
      destruct sl as [ | s [ | s2 r2 ] ]; cbn [others tl hd];
        rewrite ?Z.eqb_refl, ?others_past by lia;
        cbn [tl hd app]; now rewrite <- app_assoc.
    + rewrite fold_transform. rewrite IH by reflexivity.
      cbn [next close slots pending outputs values].
      destruct sl as [ | s r ]; cbn [others tl hd].
      * cbn. now rewrite <- app_assoc.
      * apply Z.eqb_neq in Hne. rewrite Hne. cbn [tl hd app].
        now rewrite <- app_assoc.
Qed.

Lemma normalized_length (block : list (ProcNormalize.Map D)) :
  forall sl : list (list D), length (normalized block sl) = length block.
Proof.
  induction block as [ | m rest IH ]; intros sl; cbn; [ | rewrite IH ]; reflexivity.
Qed.

(** The output at the position of a slot and its map. *)
Lemma normalized_nth (block : list (ProcNormalize.Map D)) :
  forall (sl : list (list D)) (k : nat) (slot : list D) (m : ProcNormalize.Map D),
    nth_error sl k = Some slot ->
    nth_error block k = Some m ->
    nth_error (normalized block sl) k
    = Some (map (fun v => spline_integral (ProcNormalize.spline m)
                            ((v - ProcNormalize.min m) / ProcNormalize.width m)%D)
                slot).
Proof.
  induction block as [ | m' rest IH ]; intros sl k slot m Hs Hm.
  - destruct k; discriminate.
  - destruct k as [ | k ].
    + destruct sl as [ | s r ]; [ discriminate | ].
      cbn in Hs, Hm. injection Hs as ->. injection Hm as ->. reflexivity.
    + destruct sl as [ | s r ]; [ discriminate | ].
      cbn in *. now apply IH.
Qed.

(** The abstention loop completes one output for every slot the cursor
    still has, the current one included. *)
Lemma abstain_slots_outputs (todo : list (list D)) :
  forall iter : ValueIterator D,
    pending iter = [] ->
    outputs (ProcNormalize.abstain_slots todo iter)
    = outputs iter ++ repeat [] (length todo).
Proof.
  induction todo as [ | s todo IH ]; intros [sl pe ou] Hpe;
    cbn [pending outputs] in *; subst pe.
  - cbn. now rewrite app_nil_r.
  - cbn [ProcNormalize.abstain_slots]. rewrite IH; trivial.
    cbn. now rewrite <- app_assoc.
Qed.

Lemma abstain_outputs (event : list (list D)) :
  outputs (ProcNormalize.abstain (cursor event)) = repeat [] (length event).
Proof.
  unfold ProcNormalize.abstain. now rewrite abstain_slots_outputs.
Qed.

(** C5.  When [eval] selects a block, it completes one output per map
    of the block, and for every slot other than the category slot, paired
    in order with its map, the output at its position holds the values
    [curve.integral((v - min) / width)] of the values [v] of the slot in
    order: as many values as the slot has. *)
Theorem normalize_maps_every_value
        (p : ProcNormalize.t D) (event : list (list D)) (n : Z)
        (block : list (ProcNormalize.Map D)) :
  ProcNormalize.select p (cursor event) n = Some (ProcNormalize.Block block) ->
  exists iter',
    ProcNormalize.eval p (cursor event) n = Some iter' /\
    length (outputs iter') = length block /\
    forall (k : nat) (slot : list D) (m : ProcNormalize.Map D),
      nth_error (others (ProcNormalize.categoryIdx p) 0 event) k = Some slot ->
      nth_error block k = Some m ->
      exists out,
        nth_error (outputs iter') k = Some out /\
        out = map (fun v => spline_integral (ProcNormalize.spline m)
                              ((v - ProcNormalize.min m) / ProcNormalize.width m)%D)
                  slot /\
        length out = length slot.
Proof.
  intros Hsel. unfold ProcNormalize.eval. rewrite Hsel.
  eexists. split; [ reflexivity | ].
  pose proof (normalize_loop (ProcNormalize.categoryIdx p) block 0 (cursor event)
                             eq_refl) as Hloop.
  cbn [cursor slots outputs app] in Hloop. rewrite Hloop. split.
  - apply normalized_length.
  - intros k slot m Hs Hm. eexists. split; [ | split ].
    + exact (normalized_nth _ _ _ _ _ Hs Hm).
    + reflexivity.
    + now rewrite length_map.
Qed.
End NormalizeEval.

(** ** The category lookup of eval *)

Section CategoryLookup.
Context {D : Type} `{DoubleOps D}.

Lemma cast_int_is_int (v : D) (cat : Z) :
  cast_int v = Some cat -> Machine.is_int cat = true.
Proof.
  unfold cast_int. destruct (Machine.is_int (d_to_int v)) eqn:Hi; [ | discriminate ].
  intros [= <-]. exact Hi.
Qed.

(** The category value is the value of the slot the cursor is at,
    whatever [categoryIdx] is. *)
Lemma category_reads_current_slot
      (pl : ProcLikelihood.t D) (pn : ProcNormalize.t D) (slot : list D)
      (rest : list (list D)) :
  ProcLikelihood.category pl (cursor (slot :: rest))
  = match slot with [] => None | v :: _ => cast_int v end /\
  ProcNormalize.category pn (cursor (slot :: rest))
  = match slot with [] => None | v :: _ => cast_int v end.
Proof. split; destruct slot; reflexivity. Qed.

Lemma likelihood_category_is_int (p : ProcLikelihood.t D) (iter : ValueIterator D) (cat : Z) :
  ProcLikelihood.category p iter = Some cat -> Machine.is_int cat = true.
Proof.
  unfold ProcLikelihood.category. destruct (deref iter); [ | discriminate ].
  apply cast_int_is_int.
Qed.

Lemma normalize_category_is_int (p : ProcNormalize.t D) (iter : ValueIterator D) (cat : Z) :
  ProcNormalize.category p iter = Some cat -> Machine.is_int cat = true.
Proof.
  unfold ProcNormalize.category. destruct (deref iter); [ | discriminate ].
  apply cast_int_is_int.
Qed.

(** The test [cat < 0 || (unsigned int)cat >= nCategories] on an [int]. *)
Lemma out_of_range_test (cat nCategories : Z) :
  Machine.is_int cat = true ->
  (cat <? 0) || (nCategories <=? Machine.uint cat) = false
  <-> 0 <= cat < nCategories.
Proof.
  intros Hi. rewrite orb_false_iff, Z.ltb_ge. split.
  - intros [Hc Hn]. rewrite uint_of_nonneg_int in Hn by trivial.
    apply Z.leb_gt in Hn. lia.
  - intros [Hc Hn]. rewrite uint_of_nonneg_int by trivial.
    split; [ lia | now apply Z.leb_gt ].
Qed.


(** The abstention of the normalization processor on an event: one empty
    output for every slot of the event, the category slot included. *)
Lemma normalize_abstention_outputs
      (p : ProcNormalize.t D) (event : list (list D)) (n : Z) :
  ProcNormalize.select p (cursor event) n = Some ProcNormalize.OutOfRange ->
  option_map outputs (ProcNormalize.eval p (cursor event) n)
  = Some (repeat [] (length event)).
Proof.
  intros Hsel. unfold ProcNormalize.eval. rewrite Hsel. cbn [option_map].
  now rewrite abstain_outputs.
Qed.
End CategoryLookup.

(** ** Rounding in binary64 *)

(** The exponent of the floats of a magnitude. *)
Lemma fexp_eq e : fexp64 e = Z.max (e - 53) (-1074).
Proof. reflexivity. Qed.

(** Powers of two *)

Lemma pow2_pos k : 0 <= k -> 0 < 2 ^ k.
Proof. intros. apply Z.pow_pos_nonneg; lia. Qed.

Lemma pow2_le a b : 0 <= a <= b -> 2 ^ a <= 2 ^ b.
Proof. intros. apply Z.pow_le_mono_r; lia. Qed.

Lemma pow2_lt_inv a b : 2 ^ a < 2 ^ b -> a < b.
Proof.
  intros Hlt. destruct (Z.lt_ge_cases a b) as [ | Hge ]; trivial.
  destruct (Z.lt_ge_cases b 0) as [ Hb | Hb ].
  - rewrite (Z.pow_neg_r 2 b) in Hlt by trivial.
    destruct (Z.lt_ge_cases a 0) as [ Ha | Ha ].
    + rewrite Z.pow_neg_r in Hlt by trivial. lia.
    + pose proof (pow2_pos a Ha). lia.
  - pose proof (pow2_le b a). lia.
Qed.

Lemma pow2_split a b : 0 <= a -> 0 <= b -> 2 ^ (a + b) = 2 ^ a * 2 ^ b.
Proof. intros. now apply Z.pow_add_r. Qed.

(** The number of bits of a mantissa *)

Lemma digits2_pos_bounds p :
  2 ^ (Zpos (digits2_pos p) - 1) <= Zpos p < 2 ^ Zpos (digits2_pos p).
Proof.
  induction p as [ p IH | p IH | ]; cbn [digits2_pos].
  - rewrite Pos2Z.inj_succ.
    replace (Z.succ (Zpos (digits2_pos p)) - 1) with (Z.succ (Zpos (digits2_pos p) - 1)) by lia.
    rewrite !Z.pow_succ_r by lia. lia.
  - rewrite Pos2Z.inj_succ.
    replace (Z.succ (Zpos (digits2_pos p)) - 1) with (Z.succ (Zpos (digits2_pos p) - 1)) by lia.
    rewrite !Z.pow_succ_r by lia. lia.
  - cbn. lia.
Qed.

Lemma Zdigits2_bounds m : 0 < m -> 2 ^ (Zdigits2 m - 1) <= m < 2 ^ Zdigits2 m.
Proof. destruct m as [ | p | p ]; try lia. intros _. apply digits2_pos_bounds. Qed.


Lemma Zdigits2_pos m : 0 < m -> 0 < Zdigits2 m.
Proof. destruct m; cbn; lia. Qed.

Lemma Zdigits2_unique m d : 0 < m -> 2 ^ (d - 1) <= m < 2 ^ d -> Zdigits2 m = d.
Proof.
  intros Hm [Hlo Hhi]. pose proof (Zdigits2_bounds m Hm) as [Hlo' Hhi'].
  assert (Zdigits2 m - 1 < d) by (apply pow2_lt_inv; lia).
  assert (d - 1 < Zdigits2 m) by (apply pow2_lt_inv; lia).
  lia.
Qed.




Lemma Zdigits2_shift m k : 0 < m -> 0 <= k -> Zdigits2 (m * 2 ^ k) = Zdigits2 m + k.
Proof.
  intros Hm Hk. pose proof (pow2_pos k Hk). pose proof (Zdigits2_pos m Hm).
  pose proof (Zdigits2_bounds m Hm) as [Hlo Hhi].
  apply Zdigits2_unique; [ nia | ].
  replace (Zdigits2 m + k - 1) with ((Zdigits2 m - 1) + k) by lia.
  rewrite !pow2_split by lia. nia.
Qed.


(** Shifting a mantissa to the right *)

Lemma iter_pos_nat {A} (f : A -> A) p : forall x, iter_pos f p x = Nat.iter (Pos.to_nat p) f x.
Proof.
  induction p as [ p IH | p IH | ]; intros x; cbn [iter_pos].
  - rewrite !IH, Pos2Nat.inj_xI, <- Nat.iter_add.
    replace (S (2 * Pos.to_nat p))%nat with (S (Pos.to_nat p + Pos.to_nat p)) by lia.
    now rewrite Nat.iter_succ_r.
  - rewrite !IH, Pos2Nat.inj_xO, <- Nat.iter_add.
    now replace (2 * Pos.to_nat p)%nat with (Pos.to_nat p + Pos.to_nat p)%nat by lia.
  - reflexivity.
Qed.

Lemma shr_1_m mrs : 0 <= shr_m mrs -> shr_m (shr_1 mrs) = shr_m mrs / 2.
Proof.
  destruct mrs as [m r s]. cbn [shr_m]. intros Hm.
  destruct m as [ | [ p | p | ] | p ]; try lia; cbn [shr_1 shr_m].
  - reflexivity.
  - apply Z.div_unique with 1; lia.
  - apply Z.div_unique with 0; lia.
  - reflexivity.
Qed.

Lemma shr_iter_m n : forall mrs, 0 <= shr_m mrs ->
  shr_m (Nat.iter n shr_1 mrs) = shr_m mrs / 2 ^ Z.of_nat n.
Proof.
  induction n as [ | n IH ]; intros mrs Hm.
  - cbn. now rewrite Z.div_1_r.
  - rewrite Nat.iter_succ, shr_1_m.
    + rewrite IH by trivial. rewrite Nat2Z.inj_succ, Z.pow_succ_r by lia.
      rewrite Z.div_div by (try apply pow2_pos; lia). f_equal. lia.
    + rewrite IH by trivial. apply Z.div_pos; trivial. apply pow2_pos. lia.
Qed.

Lemma shr_iter_exact n : forall m, 0 <= m -> m mod 2 ^ Z.of_nat n = 0 ->
  Nat.iter n shr_1 (Build_shr_record m false false)
  = Build_shr_record (m / 2 ^ Z.of_nat n) false false.
Proof.
  induction n as [ | n IH ]; intros m Hm Hdiv.
  - cbn. now rewrite Z.div_1_r.
  - rewrite Nat.iter_succ_r.
    rewrite Nat2Z.inj_succ, Z.pow_succ_r in * by lia.
    pose proof (pow2_pos (Z.of_nat n) ltac:(lia)) as Hp.
    apply Z.mod_divide in Hdiv; [ | lia ]. destruct Hdiv as [k Hk].
    assert (Hm2 : m = 2 * (k * 2 ^ Z.of_nat n)) by lia.
    assert (Hs : shr_1 (Build_shr_record m false false)
                 = Build_shr_record (k * 2 ^ Z.of_nat n) false false).
    { rewrite Hm2. destruct (k * 2 ^ Z.of_nat n) as [ | q | q ]; try lia; reflexivity. }
    rewrite Hs, IH.
    + f_equal. rewrite Z.div_mul by lia. rewrite Hk.
      rewrite Z.div_mul; lia.
    + nia.
    + apply Z.mod_mul. lia.
Qed.

Lemma shr_spec mrs e n : 0 <= shr_m mrs ->
  shr_m (fst (shr mrs e n)) = shr_m mrs / 2 ^ Z.max 0 n /\
  snd (shr mrs e n) = e + Z.max 0 n.
Proof.
  intros Hm. destruct n as [ | p | p ]; cbn [shr fst snd].
  - cbn. rewrite Z.div_1_r. lia.
  - rewrite iter_pos_nat, shr_iter_m, positive_nat_Z by trivial.
    now replace (Z.max 0 (Z.pos p)) with (Z.pos p) by lia.
  - replace (Z.max 0 (Z.neg p)) with 0 by lia. cbn. rewrite Z.div_1_r. lia.
Qed.

Lemma shr_exact m e n : 0 <= m -> m mod 2 ^ Z.max 0 n = 0 ->
  fst (shr (Build_shr_record m false false) e n)
  = Build_shr_record (m / 2 ^ Z.max 0 n) false false.
Proof.
  intros Hm Hdiv. destruct n as [ | p | p ]; cbn [shr fst snd].
  - cbn. now rewrite Z.div_1_r.
  - replace (Z.max 0 (Z.pos p)) with (Z.pos p) in * by lia.
    rewrite iter_pos_nat. rewrite <- (positive_nat_Z p) in *.
    now apply shr_iter_exact.
  - replace (Z.max 0 (Z.neg p)) with 0 by lia. cbn. now rewrite Z.div_1_r.
Qed.

Lemma round_nearest_even_bounds m l : m <= round_nearest_even m l <= m + 1.
Proof.
  destruct l as [ | [ | | ] ]; cbn; try lia. destruct (Z.even m); lia.
Qed.

Lemma shr_record_of_loc_m m l : shr_m (shr_record_of_loc m l) = m.
Proof. destruct l as [ | [ | | ] ]; reflexivity. Qed.

(** What [binary_round_aux] computes: the mantissa loses [shift_of] bits,
    is rounded up by at most one and, if that made it longer, loses one
    bit more. *)
Lemma binary_round_aux_spec sx mx ex lx : 0 <= mx ->
  let n1 := shift_of mx ex in
  let m0 := mx / 2 ^ n1 in
  let e0 := ex + n1 in
  exists m1,
    m0 <= m1 <= m0 + 1 /\
    (lx = loc_Exact -> mx mod 2 ^ n1 = 0 -> m1 = m0) /\
    binary_round_aux 53 1024 sx mx ex lx
    = finish sx (m1 / 2 ^ shift_of m1 e0) (e0 + shift_of m1 e0).
Proof.
  intros Hmx n1 m0 e0. unfold binary_round_aux, shr_fexp.
  pose proof (shr_spec (shr_record_of_loc mx lx) ex (fexp64 (Zdigits2 mx + ex) - ex)) as Hs.
  rewrite shr_record_of_loc_m in Hs. specialize (Hs Hmx).
  fold (shift_of mx ex) in Hs. fold n1 in Hs. fold m0 in Hs. fold e0 in Hs.
  pose proof (shr_exact mx ex (fexp64 (Zdigits2 mx + ex) - ex) Hmx) as Hx.
  fold (shift_of mx ex) in Hx. fold n1 in Hx. fold m0 in Hx.
  destruct (shr (shr_record_of_loc mx lx) ex _) as [mrs' e'] eqn:H1.
  cbn [fst snd] in Hs. destruct Hs as [Hm' He'].
  set (m1 := round_nearest_even (shr_m mrs') (loc_of_shr_record mrs')).
  exists m1.
  assert (Hb : m0 <= m1 <= m0 + 1).
  { unfold m1. rewrite <- Hm'. apply round_nearest_even_bounds. }
  split; [ exact Hb | ]. split.
  - intros -> Hdiv. cbn [shr_record_of_loc] in H1. rewrite H1 in Hx.
    cbn [fst] in Hx. specialize (Hx Hdiv). unfold m1. rewrite Hx. reflexivity.
  - assert (Hm0 : 0 <= m0).
    { unfold m0. apply Z.div_pos; trivial. apply pow2_pos. unfold n1, shift_of. lia. }
    pose proof (shr_spec (shr_record_of_loc m1 loc_Exact) e' (fexp64 (Zdigits2 m1 + e') - e')) as Hs.
    rewrite shr_record_of_loc_m in Hs. specialize (Hs ltac:(lia)).
    fold (shift_of m1 e') in Hs.
    destruct (shr (shr_record_of_loc m1 loc_Exact) e' _) as [mrs'' e''].
    cbn [fst snd] in Hs. destruct Hs as [Hm'' He'']. subst e' e''. rewrite Hm''.
    reflexivity.
Qed.

Lemma bounded_spec m e :
  bounded 53 1024 m e = true <-> fexp64 (Zdigits2 (Zpos m) + e) = e /\ e <= 971.
Proof.
  unfold bounded, canonical_mantissa. rewrite andb_true_iff, Z.eqb_eq, Z.leb_le.
  reflexivity.
Qed.




(** Division: a quotient of binary64 numbers [s <= t] is at most 1.0 *)

Lemma new_location_exact nb : new_location nb 0 = loc_Exact.
Proof. unfold new_location. destruct (Z.even nb); reflexivity. Qed.

Lemma shift_mantissa m s : 0 <= s ->
  match s with Zpos _ => Z.shiftl m s | Z0 => m | Zneg _ => 0 end = m * 2 ^ s.
Proof.
  intros Hs. destruct s as [ | p | p ]; try lia.
  now rewrite Z.shiftl_mul_pow2 by lia.
Qed.

Lemma SFdiv_core_spec ms es mt et :
  let e' := Z.min (fexp64 (Zdigits2 (Zpos ms) + es - (Zdigits2 (Zpos mt) + et))) (es - et) in
  let s := es - et - e' in
  SFdiv_core_binary 53 1024 (Zpos ms) es (Zpos mt) et
  = (Zpos ms * 2 ^ s / Zpos mt, e', new_location (Zpos mt) (Zpos ms * 2 ^ s mod Zpos mt)).
Proof.
  intros e' s. unfold SFdiv_core_binary. fold e'. fold s.
  assert (Hs : 0 <= s) by (unfold s, e'; lia).
  rewrite (shift_mantissa (Zpos ms) s Hs). unfold Z.div, Z.modulo.
  destruct (Z.div_eucl (Zpos ms * 2 ^ s) (Zpos mt)) as [q r]. reflexivity.
Qed.


(** Addition: a sum of positive binary64 numbers is not below its terms *)





(** The operations on floats that are not negative *)










(** Exact operations *)

(** Multiplying by 1.0 is exact. *)
Lemma SFmul_unit m e :
  bounded 53 1024 m e = true ->
  SFmul 53 1024 SFunit (S754_finite false m e) = S754_finite false m e.
Proof.
  intros Hb. apply bounded_spec in Hb. destruct Hb as [Hcan Hle].
  cbn [SFmul SFunit xorb].
  destruct (binary_round_aux_spec false (Zpos (4503599627370496 * m)) (-52 + e) loc_Exact
                                  ltac:(lia)) as (m1 & _ & Hexact & ->).
  rewrite Pos2Z.inj_mul in *. change (Zpos 4503599627370496) with (2 ^ 52) in *.
  assert (Hd : Zdigits2 (2 ^ 52 * Zpos m) = Zdigits2 (Zpos m) + 52).
  { rewrite Z.mul_comm. apply Zdigits2_shift; lia. }
  assert (Hn : shift_of (2 ^ 52 * Zpos m) (-52 + e) = 52).
  { unfold shift_of. rewrite Hd.
    replace (Zdigits2 (Zpos m) + 52 + (-52 + e)) with (Zdigits2 (Zpos m) + e) by lia.
    rewrite Hcan. lia. }
  rewrite Hn in *.
  assert (Hq : 2 ^ 52 * Zpos m / 2 ^ 52 = Zpos m).
  { rewrite Z.mul_comm. apply Z.div_mul. lia. }
  rewrite Hexact; trivial.
  - rewrite Hq. replace (-52 + e + 52) with e by lia.
    assert (Hn2 : shift_of (Zpos m) e = 0) by (unfold shift_of; rewrite Hcan; lia).
    rewrite Hn2, Z.pow_0_r, Z.div_1_r, Z.add_0_r. cbn [finish].
    apply Z.leb_le in Hle. now rewrite Hle.
  - rewrite Z.mul_comm. apply Z.mod_mul. lia.
Qed.

Lemma Zdigits2_xO m : Zdigits2 (Zpos m~0) = Zdigits2 (Zpos m) + 1.
Proof. cbn. lia. Qed.

(** The sum of a positive finite float with itself, when it does not
    overflow, is a float of twice its value. *)
Lemma SFadd_self m e :
  bounded 53 1024 m e = true ->
  let t := SFadd 53 1024 (S754_finite false m e) (S754_finite false m e) in
  t = S754_infinity false \/
  t = S754_finite false m (e + 1) \/
  t = S754_finite false (m~0) e.
Proof.
  intros Hb t. apply bounded_spec in Hb. destruct Hb as [Hcan Hle].
  assert (Ht : t = binary_round 53 1024 false m~0 e).
  { subst t. cbn [SFadd cond_Zopp]. rewrite Z.min_id.
    unfold shl_align. rewrite Z.sub_diag. cbn [fst].
    change (Zpos m + Zpos m) with (Zpos (m + m)).
    now rewrite Pos.add_diag. }
  rewrite Ht. clear Ht t. unfold binary_round.
  change (Zpos (digits2_pos m~0)) with (Zdigits2 (Zpos m~0)). rewrite Zdigits2_xO.
  rewrite fexp_eq in Hcan.
  pose proof (Zdigits2_pos (Zpos m) ltac:(lia)) as Hd.
  assert (Hf : fexp64 (Zdigits2 (Zpos m) + 1 + e) = e \/
               fexp64 (Zdigits2 (Zpos m) + 1 + e) = e + 1).
  { rewrite fexp_eq. lia. }
  assert (Hal : shl_align m~0 e (fexp64 (Zdigits2 (Zpos m) + 1 + e)) = (m~0, e)%positive).
  { unfold shl_align. destruct Hf as [-> | ->].
    - now rewrite Z.sub_diag.
    - now replace (e + 1 - e) with 1 by lia. }
  rewrite Hal.
  destruct (binary_round_aux_spec false (Zpos m~0) e loc_Exact ltac:(lia))
    as (m1 & _ & Hexact & ->).
  destruct Hf as [Hf | Hf].
  - assert (Hn : shift_of (Zpos m~0) e = 0).
    { unfold shift_of. rewrite Zdigits2_xO. lia. }
    rewrite Hn in *. rewrite Z.pow_0_r, Z.div_1_r, Z.add_0_r in *.
    rewrite Hexact; trivial; [ | apply Z.mod_1_r ].
    assert (Hn2 : shift_of (Zpos m~0) e = 0) by exact Hn.
    rewrite Hn2, Z.pow_0_r, Z.div_1_r, Z.add_0_r. cbn [finish].
    apply Z.leb_le in Hle. rewrite Hle. now right; right.
  - assert (Hn : shift_of (Zpos m~0) e = 1).
    { unfold shift_of. rewrite Zdigits2_xO. lia. }
    rewrite Hn in *. rewrite Z.pow_1_r in *.
    assert (Hq : Zpos m~0 / 2 = Zpos m).
    { rewrite Pos2Z.inj_xO, Z.mul_comm. apply Z.div_mul. lia. }
    rewrite Hexact; trivial.
    + rewrite Hq.
      assert (Hn2 : shift_of (Zpos m) (e + 1) = 0).
      { unfold shift_of. rewrite fexp_eq in *. lia. }
      rewrite Hn2, Z.pow_0_r, Z.div_1_r, Z.add_0_r. cbn [finish].
      destruct (e + 1 <=? 971); [ right; now left | now left ].
    + rewrite Pos2Z.inj_xO, Z.mul_comm. apply Z.mod_mul. lia.
Qed.

(** A positive finite float divided by its double is 0.5. *)
Lemma SFdiv_double m e :
  SFdiv 53 1024 (S754_finite false m e) (S754_finite false m (e + 1)) = SFhalf /\
  SFdiv 53 1024 (S754_finite false m e) (S754_finite false m~0 e) = SFhalf.
Proof.
  pose proof (pow2_pos 53 ltac:(lia)) as Hp.
  split; cbn [SFdiv xorb]; rewrite SFdiv_core_spec.
  - replace (Zdigits2 (Zpos m) + e - (Zdigits2 (Zpos m) + (e + 1))) with (-1) by lia.
    replace (e - (e + 1)) with (-1) by lia.
    change (Z.min (fexp64 (-1)) (-1)) with (-54). change (-1 - -54) with 53.
    rewrite (Z.mul_comm (Zpos m)), Z.div_mul, Z.mod_mul by lia.
    rewrite new_location_exact. reflexivity.
  - rewrite Zdigits2_xO.
    replace (Zdigits2 (Zpos m) + e - (Zdigits2 (Zpos m) + 1 + e)) with (-1) by lia.
    rewrite Z.sub_diag.
    change (Z.min (fexp64 (-1)) 0) with (-54). change (0 - -54) with 54.
    assert (Hq : Zpos m * 2 ^ 54 = 2 ^ 53 * Zpos m~0).
    { rewrite Pos2Z.inj_xO. lia. }
    rewrite Hq, Z.div_mul, Z.mod_mul by lia.
    rewrite new_location_exact. reflexivity.
Qed.

(** ** The likelihood ratio in binary64 *)

Section Binary64Likelihood.
Variable exp : spec_float -> spec_float.
Let SE : DoubleOps spec_float := SFDouble exp.
#[local] Existing Instance SE.




(** C9, amended.  In binary64, with bias 1.0: when [eval] selects a
    block, exactly one visited value is informative, its signal density
    equals its background density, the sum of the two clamped densities
    does not overflow and the underflow guard is not breached, [eval]
    emits the value 0.5.  The density is a binary64 number. *)
Theorem likelihood_equal_densities_give_half
        (p : ProcLikelihood.t spec_float) (event : list (list spec_float)) (n : Z)
        (block : list (ProcLikelihood.SigBkg spec_float))
        (x : ProcLikelihood.SigBkg spec_float * spec_float) :
  ProcLikelihood.bias p = d_one ->
  ProcLikelihood.select p (cursor event) n = Some (ProcLikelihood.Block block) ->
  let l := visited p block event in
  filter informative l = [x] ->
  ProcLikelihood.PDF_eval (ProcLikelihood.signal (fst x)) (snd x)
  = ProcLikelihood.PDF_eval (ProcLikelihood.background (fst x)) (snd x) ->
  valid_binary 53 1024
    (ProcLikelihood.PDF_eval (ProcLikelihood.signal (fst x)) (snd x)) = true ->
  SFfinite (signalProb x + backgroundProb x)%D = true ->
  underflow (count_of l) (signal_of (ProcLikelihood.bias p) l) (background_of l) = false ->
  exists iter',
    ProcLikelihood.eval p (cursor event) n = Some iter' /\
    outputs iter' = [[SFhalf]].
Proof.
  intros Hbias Hsel l Hone Heq Hvalid Hfin Hguard.
  destruct (likelihood_eval_block p event n block Hsel)
    as (iter & Hout & Hpen & Heval).
  fold l in Heval. eexists. split; [ exact Heval | ].
  assert (Hx : informative x = true).
  { assert (Hf : In x (filter informative l)) by (rewrite Hone; now left).
    now apply filter_In in Hf. }
  unfold ProcLikelihood.conclude.
  unfold underflow in Hguard. rewrite Hguard.
  unfold count_of, signal_of, background_of. rewrite Hone.
  cbn [length fold_left Z.of_nat Pos.of_succ_nat Z.eqb orb].
  revert Hx Hfin. unfold informative, signalProb, backgroundProb.
  rewrite <- Heq, Hbias.
  set (y := ProcLikelihood.PDF_eval (ProcLikelihood.signal (fst x)) (snd x)) in *.
  intros Hx Hfin.
  cbn [emit close push outputs pending]. rewrite Hout, Hpen. cbn [app].
  do 2 f_equal.
  destruct y as [ s | [ | ] | | [ | ] m e ];
    try (cbn in Hx; discriminate); try (cbn in Hfin; discriminate).
  assert (Hd : d_max d_zero (S754_finite false m e) = S754_finite false m e)
    by reflexivity.
  rewrite Hd in *. cbn [valid_binary] in Hvalid.
  change (SFdiv 53 1024 (SFmul 53 1024 SFunit (S754_finite false m e))
                (SFadd 53 1024 (SFmul 53 1024 SFunit (S754_finite false m e))
                       (SFmul 53 1024 SFunit (S754_finite false m e)))
          = SFhalf).
  rewrite SFmul_unit by trivial.
  change (SFfinite (SFadd 53 1024 (S754_finite false m e) (S754_finite false m e)) = true)
    in Hfin.
  destruct (SFadd_self m e Hvalid) as [Ht | [Ht | Ht]]; rewrite Ht in *.
  - discriminate.
  - apply SFdiv_double.
  - apply SFdiv_double.
Qed.
End Binary64Likelihood.

(** ** The processors on concrete events *)

#[local] Existing Instance Examples.QD.
#[local] Existing Instance Examples.SD.

(** C1.  The processors read the category value from the slot the cursor
    is at, not from the slot at index [categoryIdx]: configured for two
    slots with one category, with the category slot at index 1 holding 0
    and slot 0 holding 7, both read 7 and abstain, although category 0
    exists. *)
Theorem category_read_from_current_slot :
  ProcLikelihood.categoryIdx Examples.likelihood_cat1 = 1 /\
  ProcNormalize.categoryIdx Examples.normalizer_cat1 = 1 /\
  option_map (fun r => ProcLikelihood.nCategories (fst r))
             (ProcLikelihood.configure Examples.likelihood_cat1 (conf_begin 2) 2)
  = Some 1 /\
  option_map (fun r => ProcNormalize.nCategories (fst r))
             (ProcNormalize.configure Examples.normalizer_cat1 (conf_begin 2) 2)
  = Some 1 /\
  nth_error Examples.event_cat1 1 = Some [0%Q] /\
  nth_error Examples.event_cat1 0 = Some [7%Q] /\
  ProcLikelihood.category Examples.likelihood_cat1 (cursor Examples.event_cat1)
  = Some 7 /\
  ProcNormalize.category Examples.normalizer_cat1 (cursor Examples.event_cat1)
  = Some 7 /\
  option_map outputs
             (ProcLikelihood.eval Examples.likelihood_cat1 (cursor Examples.event_cat1) 2)
  = Some [[]] /\
  option_map outputs
             (ProcNormalize.eval Examples.normalizer_cat1 (cursor Examples.event_cat1) 2)
  = Some [[]; []].
Proof. repeat split. Qed.

(** C8.  On an out-of-range category value the normalization processor
    completes an empty output for the category slot too: with the
    category slot at index 0 and one other slot, for which [configure]
    declares the only output, it completes two empty outputs. *)
Theorem normalize_abstention_covers_category_slot :
  ProcNormalize.categoryIdx Examples.normalizer_cat0 = 0 /\
  ProcNormalize.nCategories Examples.normalizer_cat0 = 1 /\
  ProcNormalize.category Examples.normalizer_cat0 (cursor Examples.event_cat5)
  = Some 5 /\
  others 0 0 Examples.event_cat5 = [[1 # 2]%Q] /\
  option_map (fun r => conf_outputs (snd r))
             (ProcNormalize.configure Examples.normalizer_cat0 (conf_begin 2) 2)
  = Some [FLAG_ALL] /\
  option_map outputs
             (ProcNormalize.eval Examples.normalizer_cat0 (cursor Examples.event_cat5) 2)
  = Some [[]; []].
Proof. repeat split. Qed.


(** C9.  In binary64, with bias 1.0 and one informative value whose
    signal and background densities are equal, the output is not 0.5
    when the underflow guard is breached or the sum of the densities
    overflows.  With densities 2^-13 the sum 2^-12 is below exp(-8) and
    [eval] abstains; with densities 2^1023 the sum is infinite and
    [eval] emits 0. *)
Lemma likelihood_equal_densities_without_half :
  (ProcLikelihood.bias Examples.likelihood64_small = d_one /\
   ProcLikelihood.select Examples.likelihood64_small (cursor Examples.event64_one) 1
   = Some (ProcLikelihood.Block (ProcLikelihood.pdfs Examples.likelihood64_small)) /\
   filter informative
          (visited Examples.likelihood64_small
                   (ProcLikelihood.pdfs Examples.likelihood64_small)
                   Examples.event64_one)
   = [(Examples.flat64 Examples.pow2_m13 Examples.pow2_m13, S754_zero false)] /\
   ProcLikelihood.PDF_eval (Examples.flat64_pdf Examples.pow2_m13) (S754_zero false)
   = Examples.pow2_m13 /\
   option_map outputs
              (ProcLikelihood.eval Examples.likelihood64_small
                                   (cursor Examples.event64_one) 1)
   = Some [[]]) /\
  (ProcLikelihood.bias Examples.likelihood64_large = d_one /\
   ProcLikelihood.select Examples.likelihood64_large (cursor Examples.event64_one) 1
   = Some (ProcLikelihood.Block (ProcLikelihood.pdfs Examples.likelihood64_large)) /\
   filter informative
          (visited Examples.likelihood64_large
                   (ProcLikelihood.pdfs Examples.likelihood64_large)
                   Examples.event64_one)
   = [(Examples.flat64 Examples.pow2_1023 Examples.pow2_1023, S754_zero false)] /\
   ProcLikelihood.PDF_eval (Examples.flat64_pdf Examples.pow2_1023) (S754_zero false)
   = Examples.pow2_1023 /\
   option_map outputs
              (ProcLikelihood.eval Examples.likelihood64_large
                                   (cursor Examples.event64_one) 1)
   = Some [[S754_zero false]]).
Proof.
  repeat split; vm_compute; reflexivity.
Qed.

(** C10.  A failed divisibility check can leave [nCategories] at its
    prior value: with a table of five entries and four slots the check
    is reached and fails (1 * 3 is not 5), and the quotient 5 / 3 = 1
    that [configure] stores in [nCategories] is the value the field has
    from construction. *)
Lemma configure_failed_check_keeps_nCategories :
  0 <= ProcLikelihood.categoryIdx Examples.likelihood_five /\
  0 <= ProcNormalize.categoryIdx Examples.normalizer_five /\
  Z.of_nat (length (ProcLikelihood.pdfs Examples.likelihood_five)) = 5 /\
  Z.of_nat (length (ProcNormalize.maps Examples.normalizer_five)) = 5 /\
  accepts 0 4 = true /\
  divisor 4 = 3 /\
  Machine.uint (Machine.uint (5 / divisor 4) * divisor 4) <> 5 /\
  ProcLikelihood.nCategories Examples.likelihood_five = 1 /\
  ProcNormalize.nCategories Examples.normalizer_five = 1 /\
  option_map (fun r => (ProcLikelihood.nCategories (fst r), snd r))
             (ProcLikelihood.configure Examples.likelihood_five (conf_begin 4) 4)
  = Some (1, conf_begin 4) /\
  option_map (fun r => (ProcNormalize.nCategories (fst r), snd r))
             (ProcNormalize.configure Examples.normalizer_five (conf_begin 4) 4)
  = Some (1, conf_begin 4).
Proof.
  repeat split; try reflexivity; vm_compute; discriminate.
Qed.

(** The slot counts between 1 and [INT_MAX] that pass the check are
    those above [categoryIdx]. *)
Lemma accepts_iff (categoryIdx n : Z) :
  0 <= n <= Machine.INT_MAX -> (accepts categoryIdx n = true <-> categoryIdx < n).
Proof.
  intros Hn. unfold accepts, Machine.sint.
  rewrite Z.mod_small by (unfold Machine.INT_MAX, Machine.UINT_MOD in *; lia).
  destruct (Z.leb_spec n Machine.INT_MAX); [ | lia ].
  rewrite negb_true_iff, Z.ltb_ge. lia.
Qed.

(** With four slots and a table of five entries [configure] of both
    processors returns with nothing declared. *)
Example configure_four_slots_five_entries :
  option_map snd (ProcLikelihood.configure Examples.likelihood_five (conf_begin 4) 4)
  = Some (conf_begin 4) /\
  option_map snd (ProcNormalize.configure Examples.normalizer_five (conf_begin 4) 4)
  = Some (conf_begin 4).
Proof. split; reflexivity. Qed.

(** With two slots and two table entries and no category,
    [ProcLikelihood.configure] declares both inputs with any arity and
    one optional output; [ProcNormalize.configure] with the category slot
    at index 0 declares one output for the other slot. *)
Example configure_declares :
  option_map snd (ProcLikelihood.configure Examples.likelihood_two (conf_begin 2) 2)
  = Some {| conf_todo := 0; conf_inputs := [FLAG_ALL; FLAG_ALL];
            conf_outputs := [FLAG_OPTIONAL] |} /\
  option_map snd (ProcNormalize.configure Examples.normalizer_cat0 (conf_begin 2) 2)
  = Some {| conf_todo := 0; conf_inputs := [FLAG_NONE; FLAG_ALL];
            conf_outputs := [FLAG_ALL] |}.
Proof. split; reflexivity. Qed.

(** The density of a spline PDF: the curve at the normalized value,
    times the number of entries, over the area. *)
Example spline_density :
  ProcLikelihood.PDF_eval
    (ProcLikelihood.SplinePDF 0%Q 10%Q
       {| spline_eval := fun u => (2 * u)%Q; spline_integral := fun u => (u * u)%Q;
          spline_numberOfEntries := 3; spline_getArea := (3 # 2)%Q |})
    5%Q
  = ((2 * ((5 - 0) / 10)) * inject_Z 3 / (3 # 2))%Q.
Proof. reflexivity. Qed.

(** Two variables with signal density 0.8 and background density 0.2
    and bias 1 give 0.64 / 0.68. *)
Example likelihood_two_variables :
  option_map outputs
             (ProcLikelihood.eval Examples.likelihood_two (cursor Examples.event_two) 2)
  = Some [[(10000 # 10625)%Q]] /\
  (10000 # 10625 == 16 # 17)%Q.
Proof. split; [ vm_compute | ]; reflexivity. Qed.

(** The normalization processor on a slot with no value and with two
    values. *)
Example normalize_arities :
  option_map outputs
             (ProcNormalize.eval Examples.normalizer_plain (cursor Examples.event_none) 1)
  = Some [[]] /\
  option_map outputs
             (ProcNormalize.eval Examples.normalizer_plain (cursor Examples.event_pair) 1)
  = Some [[(5 # 10)%Q; (10 # 10)%Q]].
Proof. split; vm_compute; reflexivity. Qed.

(** ** The properties at concrete events *)

(** [configure_divides_by_zero] at two processors with one table entry. *)
Lemma configure_divides_by_zero_witness :
  accepts 0 1 = true /\ divisor 1 = 0 /\
  ProcLikelihood.configure Examples.likelihood_cat0 (conf_begin 1) 1 = None /\
  ProcNormalize.configure Examples.normalizer_cat0 (conf_begin 1) 1 = None.
Proof.
  apply (configure_divides_by_zero
           Examples.likelihood_cat0 Examples.normalizer_cat0 (conf_begin 1));
    reflexivity.
Defined.

(** [configure_failed_check_overwrites_nCategories] at tables of five
    entries and three slots: the quotient 5 / 2 = 2 replaces the initial 1. *)
Lemma configure_failed_check_witness :
  (exists pl',
      ProcLikelihood.configure Examples.likelihood_five (conf_begin 3) 3
      = Some (pl', conf_begin 3) /\
      ProcLikelihood.nCategories pl' = 2) /\
  (exists pn',
      ProcNormalize.configure Examples.normalizer_five (conf_begin 3) 3
      = Some (pn', conf_begin 3) /\
      ProcNormalize.nCategories pn' = 2).
Proof.
  destruct (configure_failed_check_overwrites_nCategories
              Examples.likelihood_five Examples.normalizer_five (conf_begin 3) 3)
    as [Hl Hn].
  split.
  - destruct Hl as (pl' & Hconf & Hq & _);
      [ vm_compute; discriminate | reflexivity | discriminate | discriminate | ].
    exists pl'. split; [ exact Hconf | exact Hq ].
  - destruct Hn as (pn' & Hconf & Hq & _);
      [ vm_compute; discriminate | reflexivity | discriminate | discriminate | ].
    exists pn'. split; [ exact Hconf | exact Hq ].
Defined.

(** [likelihood_abstains_iff_uninformative_or_underflow] at the processor of
    two variables: it does not abstain. *)
Lemma likelihood_decision_witness :
  exists iter',
    ProcLikelihood.eval Examples.likelihood_two (cursor Examples.event_two) 2
    = Some iter' /\
    outputs iter' <> [[]].
Proof.
  destruct (likelihood_abstains_iff_uninformative_or_underflow
              Examples.likelihood_two Examples.event_two 2
              (ProcLikelihood.pdfs Examples.likelihood_two) eq_refl)
    as (iter' & Heval & Hiff & _).
  exists iter'. split; [ exact Heval | ].
  intros Habs. apply Hiff in Habs. vm_compute in Habs.
  destruct Habs; discriminate.
Defined.


(** [normalize_maps_every_value] at a slot of two values. *)
Lemma normalize_maps_every_value_witness :
  exists iter',
    ProcNormalize.eval Examples.normalizer_plain (cursor Examples.event_pair) 1
    = Some iter' /\
    exists out, nth_error (outputs iter') 0 = Some out /\ length out = 2%nat.
Proof.
  destruct (normalize_maps_every_value
              Examples.normalizer_plain Examples.event_pair 1
              (ProcNormalize.maps Examples.normalizer_plain) eq_refl)
    as (iter' & Heval & _ & Hnth).
  exists iter'. split; [ exact Heval | ].
  destruct (Hnth 0%nat [5%Q; 10%Q] (Examples.ramp_map 0 10) eq_refl eq_refl)
    as (out & Hout & _ & Hlen).
  exists out. split; [ exact Hout | exact Hlen ].
Defined.


(** [likelihood_equal_densities_give_half] at equal densities 0.5. *)
Lemma likelihood_equal_densities_witness :
  exists iter',
    ProcLikelihood.eval Examples.likelihood64_even (cursor Examples.event64_one) 1
    = Some iter' /\
    outputs iter' = [[SFhalf]].
Proof.
  apply (likelihood_equal_densities_give_half
           SFexp_approx Examples.likelihood64_even Examples.event64_one 1
           (ProcLikelihood.pdfs Examples.likelihood64_even)
           (Examples.flat64 SFhalf SFhalf, S754_zero false)).
  - reflexivity.
  - reflexivity.
  - vm_compute. reflexivity.
  - reflexivity.
  - reflexivity.
  - vm_compute. reflexivity.
  - vm_compute. reflexivity.
Defined.

(** * Further properties of configure *)

Section ConfigureDeclarations.

Lemma sint_small (n : Z) : 0 <= n <= Machine.INT_MAX -> Machine.sint n = n.
Proof.
  intros Hn. unfold Machine.sint.
  rewrite Z.mod_small by (unfold Machine.INT_MAX, Machine.UINT_MOD in *; lia).
  destruct (Z.leb_spec n Machine.INT_MAX); lia.
Qed.


(** What the shape checks of [configure] compute when the shape matches
    with a category slot. *)
Lemma shape_checks_pass (size c n : Z) :
  0 <= size ->
  0 <= c < n -> 2 <= n <= Machine.INT_MAX -> size < Machine.UINT_MOD ->
  (exists k, size = k * (n - 1)) ->
  (Machine.sint n <? c + 1) = false /\
  Machine.uint (n - 1) = n - 1 /\
  Machine.uint (size / (n - 1)) = size / (n - 1) /\
  Machine.uint (size / (n - 1) * (n - 1)) = size.
Proof.
  intros Hs Hc Hn Hlt [k Hk].
  assert (Hmax : Machine.INT_MAX < Machine.UINT_MOD) by reflexivity.
  assert (Hq : size / (n - 1) = k).
  { subst size. apply Z.div_mul. lia. }
  assert (Hk0 : 0 <= k) by nia.
  repeat split.
  - rewrite sint_small by lia. apply Z.ltb_ge. lia.
  - apply uint_small. lia.
  - rewrite Hq. apply uint_small. nia.
  - rewrite Hq, <- Hk. apply uint_small. lia.
Qed.

(** The loop of [ProcLikelihood::configure] declares the slots the
    cursor still has, one after the other, and no output. *)
Lemma declare_inputs_spec (c : Z) (todo : nat) :
  forall (i : nat) (iter : ConfIterator),
    ProcLikelihood.declare_inputs c todo (Z.of_nat i) iter
    = {| conf_todo := conf_todo iter - todo;
         conf_inputs := conf_inputs iter ++ map (input_flags c) (seq i todo);
         conf_outputs := conf_outputs iter |}.
Proof.
  induction todo as [ | todo IH ]; intros i [t ins outs]; cbn [ProcLikelihood.declare_inputs].
  - cbn. now rewrite Nat.sub_0_r, app_nil_r.
  - replace (Z.of_nat i + 1) with (Z.of_nat (S i)) by lia.
    rewrite IH. cbn [seq map]. unfold input_flags at 2.
    destruct (c =? Z.of_nat i); cbn; rewrite <- app_assoc; cbn;
      f_equal; lia.
Qed.

(** The loop of [ProcNormalize::configure] declares the slots the
    cursor still has, and one output of any arity for each of them but
    the category slot. *)
Lemma declare_slots_spec (c : Z) (A : Type) (l : list A) :
  forall (i : nat) (iter : ConfIterator),
    ProcNormalize.declare_slots c (length l) (Z.of_nat i) iter
    = {| conf_todo := conf_todo iter - length l;
         conf_inputs := conf_inputs iter ++ map (input_flags c) (seq i (length l));
         conf_outputs := conf_outputs iter
                         ++ repeat FLAG_ALL (length (others c (Z.of_nat i) l)) |}.
Proof.
  induction l as [ | x l IH ]; intros i [t ins outs];
    cbn [ProcNormalize.declare_slots length].
  - cbn. now rewrite Nat.sub_0_r, !app_nil_r.
  - replace (Z.of_nat i + 1) with (Z.of_nat (S i)) by lia.
    rewrite IH. cbn [seq map others]. unfold input_flags at 2.
    rewrite (Z.eqb_sym (Z.of_nat i) c).
    destruct (Z.eqb_spec c (Z.of_nat i)) as [He | Hne]; cbn.
    + rewrite others_past by lia. rewrite <- app_assoc. cbn. f_equal. lia.
    + rewrite <- !app_assoc. cbn.
      replace (Z.of_nat i + 1) with (Z.of_nat (S i)) by lia.
      f_equal. lia.
Qed.
End ConfigureDeclarations.

Section ConfigureSuccess.
Context {D : Type} `{DoubleOps D}.

Lemma likelihood_set_same (p : ProcLikelihood.t D) :
  ProcLikelihood.set_nCategories (ProcLikelihood.nCategories p) p = p.
Proof. now destruct p. Qed.

Lemma normalize_set_same (p : ProcNormalize.t D) :
  ProcNormalize.set_nCategories (ProcNormalize.nCategories p) p = p.
Proof. now destruct p. Qed.

(** The result of [configure] when the table size matches the slot count. *)
Lemma likelihood_configure_matching
        (p : ProcLikelihood.t D) (m : nat) (n : Z) :
  let size := Z.of_nat (length (ProcLikelihood.pdfs p)) in
  let c := ProcLikelihood.categoryIdx p in
  shape_matches size c n ->
  ProcLikelihood.configure p (conf_begin m) n
  = Some (ProcLikelihood.set_nCategories
            (categories_of size c n (ProcLikelihood.nCategories p)) p,
          {| conf_todo := 0;
             conf_inputs := map (input_flags c) (seq 0 m);
             conf_outputs := [FLAG_OPTIONAL] |}).
Proof.
  intros size c Hshape. unfold ProcLikelihood.configure, categories_of.
  fold size c.
  assert (Hdecl : forall p' : ProcLikelihood.t D,
             ProcLikelihood.categoryIdx p' = c ->
             ProcLikelihood.declare p' (conf_begin m)
             = {| conf_todo := 0;
                  conf_inputs := map (input_flags c) (seq 0 m);
                  conf_outputs := [FLAG_OPTIONAL] |}).
  { intros p' Hp'. unfold ProcLikelihood.declare. rewrite Hp'.
    cbn [conf_begin conf_todo]. rewrite (declare_inputs_spec c m 0).
    unfold conf_out. cbn. now rewrite Nat.sub_diag. }
  destruct Hshape as [[Hc Hn] | (Hc & Hn & Hlt & Hk)].
  - apply Z.leb_gt in Hc as Hc'. rewrite Hc'.
    apply Z.ltb_lt in Hc. rewrite Hc.
    apply Z.eqb_eq in Hn. rewrite Hn. cbn [negb].
    rewrite likelihood_set_same, Hdecl; reflexivity.
  - destruct (shape_checks_pass size c n) as (Hs & Hd & Hq & Hm);
      trivial; [ subst size; lia | ].
    destruct Hc as [Hc0 Hcn]. apply Z.leb_le in Hc0 as Hc'. rewrite Hc'.
    apply Z.ltb_ge in Hc0. rewrite Hc0, Hs, Hd.
    destruct (Z.eqb_spec (n - 1) 0); [ lia | ].
    rewrite Hq. cbn [ProcLikelihood.nCategories ProcLikelihood.set_nCategories].
    rewrite Hm, Z.eqb_refl. cbn [negb]. rewrite Hdecl; reflexivity.
Qed.

(** When the table size matches the slot count,
    [ProcLikelihood::configure] returns with the number of categories
    set (with a category slot, to the number of blocks), every slot of
    the cursor declared (the category slot with no flag, the others
    with any arity) and one optional output declared. *)
Theorem likelihood_configure_declares
        (p : ProcLikelihood.t D) (m : nat) (n : Z) :
  let size := Z.of_nat (length (ProcLikelihood.pdfs p)) in
  let c := ProcLikelihood.categoryIdx p in
  shape_matches size c n ->
  ProcLikelihood.configure p (conf_begin m) n
  = Some (ProcLikelihood.set_nCategories
            (categories_of size c n (ProcLikelihood.nCategories p)) p,
          {| conf_todo := 0;
             conf_inputs := map (input_flags c) (seq 0 m);
             conf_outputs := [FLAG_OPTIONAL] |}).
Proof. exact (likelihood_configure_matching p m n). Qed.

(** The result of [configure] when the table size matches the slot count. *)
Lemma normalize_configure_matching
        (p : ProcNormalize.t D) (event : list (list D)) (n : Z) :
  let size := Z.of_nat (length (ProcNormalize.maps p)) in
  let c := ProcNormalize.categoryIdx p in
  shape_matches size c n ->
  ProcNormalize.configure p (conf_begin (length event)) n
  = Some (ProcNormalize.set_nCategories
            (categories_of size c n (ProcNormalize.nCategories p)) p,
          {| conf_todo := 0;
             conf_inputs := map (input_flags c) (seq 0 (length event));
             conf_outputs := repeat FLAG_ALL (length (others c 0 event)) |}).
Proof.
  intros size c Hshape. unfold ProcNormalize.configure, categories_of.
  fold size c.
  assert (Hdecl : forall p' : ProcNormalize.t D,
             ProcNormalize.categoryIdx p' = c ->
             ProcNormalize.declare p' (conf_begin (length event))
             = {| conf_todo := 0;
                  conf_inputs := map (input_flags c) (seq 0 (length event));
                  conf_outputs := repeat FLAG_ALL (length (others c 0 event)) |}).
  { intros p' Hp'. unfold ProcNormalize.declare. rewrite Hp'.
    cbn [conf_begin conf_todo]. rewrite (declare_slots_spec c _ event 0).
    cbn. now rewrite Nat.sub_diag. }
  destruct Hshape as [[Hc Hn] | (Hc & Hn & Hlt & Hk)].
  - apply Z.leb_gt in Hc as Hc'. rewrite Hc'.
    apply Z.ltb_lt in Hc. rewrite Hc.
    apply Z.eqb_eq in Hn. rewrite Hn. cbn [negb].
    rewrite normalize_set_same, Hdecl; reflexivity.
  - destruct (shape_checks_pass size c n) as (Hs & Hd & Hq & Hm);
      trivial; [ subst size; lia | ].
    destruct Hc as [Hc0 Hcn]. apply Z.leb_le in Hc0 as Hc'. rewrite Hc'.
    apply Z.ltb_ge in Hc0. rewrite Hc0, Hs, Hd.
    destruct (Z.eqb_spec (n - 1) 0); [ lia | ].
    rewrite Hq. cbn [ProcNormalize.nCategories ProcNormalize.set_nCategories].
    rewrite Hm, Z.eqb_refl. cbn [negb]. rewrite Hdecl; reflexivity.
Qed.

(** When the table size matches the slot count,
    [ProcNormalize::configure] returns with the number of categories
    set, every slot of the cursor declared, and one output of any arity
    declared for each slot other than the category slot. *)
Theorem normalize_configure_declares
        (p : ProcNormalize.t D) (event : list (list D)) (n : Z) :
  let size := Z.of_nat (length (ProcNormalize.maps p)) in
  let c := ProcNormalize.categoryIdx p in
  shape_matches size c n ->
  ProcNormalize.configure p (conf_begin (length event)) n
  = Some (ProcNormalize.set_nCategories
            (categories_of size c n (ProcNormalize.nCategories p)) p,
          {| conf_todo := 0;
             conf_inputs := map (input_flags c) (seq 0 (length event));
             conf_outputs := repeat FLAG_ALL (length (others c 0 event)) |}).
Proof. exact (normalize_configure_matching p event n). Qed.

(** [configure] of either processor leaves the table, the category
    index and the bias alone, and configuring the processor it returns
    once more with the same slot count gives the same result. *)
Theorem configure_idempotent
        (pl : ProcLikelihood.t D) (pn : ProcNormalize.t D)
        (iter : ConfIterator) (n : Z) :
  (forall pl' iter',
      ProcLikelihood.configure pl iter n = Some (pl', iter') ->
      ProcLikelihood.pdfs pl' = ProcLikelihood.pdfs pl /\
      ProcLikelihood.categoryIdx pl' = ProcLikelihood.categoryIdx pl /\
      ProcLikelihood.bias pl' = ProcLikelihood.bias pl /\
      ProcLikelihood.configure pl' iter n = Some (pl', iter')) /\
  (forall pn' iter',
      ProcNormalize.configure pn iter n = Some (pn', iter') ->
      ProcNormalize.maps pn' = ProcNormalize.maps pn /\
      ProcNormalize.categoryIdx pn' = ProcNormalize.categoryIdx pn /\
      ProcNormalize.configure pn' iter n = Some (pn', iter')).
Proof.
  split.
  - intros pl' iter'. unfold ProcLikelihood.configure. cbv zeta.
    destruct (0 <=? ProcLikelihood.categoryIdx pl) eqn:Hc.
    + destruct (Machine.sint n <? _) eqn:Ha.
      * intros [= <- <-]. rewrite Hc, Ha. auto.
      * destruct (Machine.uint (n - 1) =? 0) eqn:Hd; [ discriminate | ].
        cbn [ProcLikelihood.nCategories ProcLikelihood.set_nCategories
             ProcLikelihood.pdfs ProcLikelihood.categoryIdx].
        destruct (negb _) eqn:Hk; intros [= <- <-];
          cbn [ProcLikelihood.nCategories ProcLikelihood.set_nCategories
               ProcLikelihood.pdfs ProcLikelihood.categoryIdx ProcLikelihood.bias];
          rewrite ?Hc, ?Ha, ?Hd, ?Hk; auto.
    + destruct (negb _) eqn:Hk; intros [= <- <-]; rewrite Hc, Hk; auto.
  - intros pn' iter'. unfold ProcNormalize.configure. cbv zeta.
    destruct (0 <=? ProcNormalize.categoryIdx pn) eqn:Hc.
    + destruct (Machine.sint n <? _) eqn:Ha.
      * intros [= <- <-]. rewrite Hc, Ha. auto.
      * destruct (Machine.uint (n - 1) =? 0) eqn:Hd; [ discriminate | ].
        cbn [ProcNormalize.nCategories ProcNormalize.set_nCategories
             ProcNormalize.maps ProcNormalize.categoryIdx].
        destruct (negb _) eqn:Hk; intros [= <- <-];
          cbn [ProcNormalize.nCategories ProcNormalize.set_nCategories
               ProcNormalize.maps ProcNormalize.categoryIdx];
          rewrite ?Hc, ?Ha, ?Hd, ?Hk; auto.
    + destruct (negb _) eqn:Hk; intros [= <- <-]; rewrite Hc, Hk; auto.
Qed.

End ConfigureSuccess.

(** * Further properties of the category blocks *)

(** When the divisibility check passes the quotient and the product are
    computed without wrap-around. *)
Lemma check_passes_exact (size d : Z) :
  0 <= size -> 0 < d ->
  Machine.uint (Machine.uint (size / d) * d) = size ->
  size < Machine.UINT_MOD /\
  Machine.uint (size / d) = size / d /\
  size / d * d = size.
Proof.
  intros Hs Hd Hk.
  assert (Hlt : size < Machine.UINT_MOD).
  { rewrite <- Hk. apply uint_range. }
  assert (Hq0 : 0 <= size / d) by (apply Z.div_pos; lia).
  assert (Hqd : d * (size / d) <= size) by (apply Z.mul_div_le; lia).
  assert (Hq : Machine.uint (size / d) = size / d) by (apply uint_small; nia).
  repeat split; trivial.
  rewrite Hq in Hk. rewrite uint_small in Hk by nia. exact Hk.
Qed.

Lemma block_length {A : Type} (l : list A) (first len : Z) :
  0 <= first -> 0 <= len -> first + len <= Z.of_nat (length l) ->
  length (firstn (Z.to_nat len) (skipn (Z.to_nat first) l)) = Z.to_nat len.
Proof.
  intros Hf Hl Hle. rewrite length_firstn, length_skipn. lia.
Qed.

Section CategoryBlocks.
Context {D : Type} `{DoubleOps D}.

(** The block of a category in range, in a table of [nCategories]
    blocks of [n - 1] entries. *)
Lemma likelihood_select_in_table
      (p : ProcLikelihood.t D) (event : list (list D)) (n cat : Z) :
  let size := Z.of_nat (length (ProcLikelihood.pdfs p)) in
  0 <= ProcLikelihood.categoryIdx p ->
  ProcLikelihood.nCategories p * divisor n = size ->
  size < Machine.UINT_MOD ->
  ProcLikelihood.category p (cursor event) = Some cat ->
  0 <= cat < ProcLikelihood.nCategories p ->
  ProcLikelihood.select p (cursor event) n
  = Some (ProcLikelihood.Block
            (firstn (Z.to_nat (divisor n))
                    (skipn (Z.to_nat (cat * divisor n)) (ProcLikelihood.pdfs p)))) /\
  cat * divisor n + divisor n <= size /\
  length (firstn (Z.to_nat (divisor n))
                 (skipn (Z.to_nat (cat * divisor n)) (ProcLikelihood.pdfs p)))
  = Z.to_nat (divisor n).
Proof.
  intros size Hc Hm Hlt Hcat Hin.
  pose proof (uint_range (n - 1)) as Hu. fold (divisor n) in Hu.
  pose proof (likelihood_category_is_int _ _ _ Hcat) as Hi.
  pose proof (proj2 (out_of_range_test cat _ Hi) Hin) as Ht.
  assert (Hcd : 0 <= cat * divisor n /\ cat * divisor n + divisor n <= size) by nia.
  unfold ProcLikelihood.select.
  apply Z.leb_le in Hc. rewrite Hc, Hcat, Ht. fold (divisor n).
  rewrite (uint_small (cat * divisor n)) by lia.
  split; [ reflexivity | ]. split; [ lia | ].
  apply block_length; fold size; lia.
Qed.

Lemma normalize_select_in_table
      (p : ProcNormalize.t D) (event : list (list D)) (n cat : Z) :
  let size := Z.of_nat (length (ProcNormalize.maps p)) in
  0 <= ProcNormalize.categoryIdx p ->
  ProcNormalize.nCategories p * divisor n = size ->
  size < Machine.UINT_MOD ->
  ProcNormalize.category p (cursor event) = Some cat ->
  0 <= cat < ProcNormalize.nCategories p ->
  ProcNormalize.select p (cursor event) n
  = Some (ProcNormalize.Block
            (firstn (Z.to_nat (divisor n))
                    (skipn (Z.to_nat (cat * divisor n)) (ProcNormalize.maps p)))) /\
  cat * divisor n + divisor n <= size /\
  length (firstn (Z.to_nat (divisor n))
                 (skipn (Z.to_nat (cat * divisor n)) (ProcNormalize.maps p)))
  = Z.to_nat (divisor n).
Proof.
  intros size Hc Hm Hlt Hcat Hin.
  pose proof (uint_range (n - 1)) as Hu. fold (divisor n) in Hu.
  pose proof (normalize_category_is_int _ _ _ Hcat) as Hi.
  pose proof (proj2 (out_of_range_test cat _ Hi) Hin) as Ht.
  assert (Hcd : 0 <= cat * divisor n /\ cat * divisor n + divisor n <= size) by nia.
  unfold ProcNormalize.select.
  apply Z.leb_le in Hc. rewrite Hc, Hcat, Ht. fold (divisor n).
  rewrite (uint_small (cat * divisor n)) by lia.
  split; [ reflexivity | ]. split; [ lia | ].
  apply block_length; fold size; lia.
Qed.

(** When [configure] of either processor passes its checks with a
    category slot, the table is exactly [nCategories] blocks of [n - 1]
    entries, and for every category value in range [eval] selects the
    block of that category: [n - 1] entries that lie inside the table. *)
Theorem configured_category_blocks
        (pl : ProcLikelihood.t D) (pn : ProcNormalize.t D)
        (iter : ConfIterator) (n : Z) :
  (let size := Z.of_nat (length (ProcLikelihood.pdfs pl)) in
   0 <= ProcLikelihood.categoryIdx pl ->
   accepts (ProcLikelihood.categoryIdx pl) n = true ->
   divisor n <> 0 ->
   Machine.uint (Machine.uint (size / divisor n) * divisor n) = size ->
   exists pl',
     ProcLikelihood.configure pl iter n = Some (pl', ProcLikelihood.declare pl' iter) /\
     ProcLikelihood.nCategories pl' * divisor n = size /\
     forall (event : list (list D)) (cat : Z),
       ProcLikelihood.category pl' (cursor event) = Some cat ->
       0 <= cat < ProcLikelihood.nCategories pl' ->
       exists block,
         ProcLikelihood.select pl' (cursor event) n = Some (ProcLikelihood.Block block) /\
         block = firstn (Z.to_nat (divisor n))
                        (skipn (Z.to_nat (cat * divisor n)) (ProcLikelihood.pdfs pl)) /\
         cat * divisor n + divisor n <= size /\
         length block = Z.to_nat (divisor n)) /\
  (let size := Z.of_nat (length (ProcNormalize.maps pn)) in
   0 <= ProcNormalize.categoryIdx pn ->
   accepts (ProcNormalize.categoryIdx pn) n = true ->
   divisor n <> 0 ->
   Machine.uint (Machine.uint (size / divisor n) * divisor n) = size ->
   exists pn',
     ProcNormalize.configure pn iter n = Some (pn', ProcNormalize.declare pn' iter) /\
     ProcNormalize.nCategories pn' * divisor n = size /\
     forall (event : list (list D)) (cat : Z),
       ProcNormalize.category pn' (cursor event) = Some cat ->
       0 <= cat < ProcNormalize.nCategories pn' ->
       exists block,
         ProcNormalize.select pn' (cursor event) n = Some (ProcNormalize.Block block) /\
         block = firstn (Z.to_nat (divisor n))
                        (skipn (Z.to_nat (cat * divisor n)) (ProcNormalize.maps pn)) /\
         cat * divisor n + divisor n <= size /\
         length block = Z.to_nat (divisor n)).
Proof.
  pose proof (uint_range (n - 1)) as Hu. fold (divisor n) in Hu.
  split; intros size Hc Ha Hd Hk.
  - destruct (check_passes_exact size (divisor n)) as (Hlt & Hq & Hm);
      [ subst size; lia | lia | exact Hk | ].
    exists (ProcLikelihood.set_nCategories (Machine.uint (size / divisor n)) pl).
    split; [ | split ].
    + unfold ProcLikelihood.configure. fold size.
      apply Z.leb_le in Hc. rewrite Hc.
      unfold accepts in Ha. apply negb_true_iff in Ha. rewrite Ha.
      fold (divisor n). apply Z.eqb_neq in Hd. rewrite Hd.
      cbn [ProcLikelihood.nCategories ProcLikelihood.set_nCategories].
      apply Z.eqb_eq in Hk. now rewrite Hk.
    + cbn. now rewrite Hq.
    + intros event cat Hcat Hin.
      destruct (likelihood_select_in_table
                  (ProcLikelihood.set_nCategories (Machine.uint (size / divisor n)) pl)
                  event n cat)
        as (Hsel & Hle & Hlen);
        [ exact Hc
        | cbn [ProcLikelihood.nCategories ProcLikelihood.set_nCategories ProcLikelihood.pdfs];
          rewrite Hq; exact Hm
        | exact Hlt | exact Hcat | exact Hin | ].
      eexists. split; [ exact Hsel | ]. split; [ reflexivity | ].
      split; [ exact Hle | exact Hlen ].
  - destruct (check_passes_exact size (divisor n)) as (Hlt & Hq & Hm);
      [ subst size; lia | lia | exact Hk | ].
    exists (ProcNormalize.set_nCategories (Machine.uint (size / divisor n)) pn).
    split; [ | split ].
    + unfold ProcNormalize.configure. fold size.
      apply Z.leb_le in Hc. rewrite Hc.
      unfold accepts in Ha. apply negb_true_iff in Ha. rewrite Ha.
      fold (divisor n). apply Z.eqb_neq in Hd. rewrite Hd.
      cbn [ProcNormalize.nCategories ProcNormalize.set_nCategories].
      apply Z.eqb_eq in Hk. now rewrite Hk.
    + cbn. now rewrite Hq.
    + intros event cat Hcat Hin.
      destruct (normalize_select_in_table
                  (ProcNormalize.set_nCategories (Machine.uint (size / divisor n)) pn)
                  event n cat)
        as (Hsel & Hle & Hlen);
        [ exact Hc
        | cbn [ProcNormalize.nCategories ProcNormalize.set_nCategories ProcNormalize.maps];
          rewrite Hq; exact Hm
        | exact Hlt | exact Hcat | exact Hin | ].
      eexists. split; [ exact Hsel | ]. split; [ reflexivity | ].
      split; [ exact Hle | exact Hlen ].
Qed.
End CategoryBlocks.

(** * Further properties of eval *)

Section EvalOutputs.
Context {D : Type} `{DoubleOps D}.

(** What the decision at the end of [ProcLikelihood::eval] adds to the
    outputs. *)
Lemma conclude_outputs (iter : ValueIterator D) (vars : Z) (sig bkg : D) :
  outputs (ProcLikelihood.conclude iter (vars, sig, bkg))
  = outputs iter
    ++ [pending iter
        ++ if (vars =? 0) || underflow vars sig bkg then []
           else [(sig / (sig + bkg))%D]].
Proof.
  unfold ProcLikelihood.conclude, underflow.
  destruct ((vars =? 0) || _); cbn; [ now rewrite app_nil_r | reflexivity ].
Qed.

(** The outputs of [ProcLikelihood::eval] once a block is selected. *)
Lemma likelihood_block_outputs (p : ProcLikelihood.t D) (event : list (list D)) (n : Z)
      (block : list (ProcLikelihood.SigBkg D)) :
  ProcLikelihood.select p (cursor event) n = Some (ProcLikelihood.Block block) ->
  let l := visited p block event in
  option_map outputs (ProcLikelihood.eval p (cursor event) n)
  = Some [if (count_of l =? 0)
             || underflow (count_of l) (signal_of (ProcLikelihood.bias p) l)
                          (background_of l)
          then []
          else [(signal_of (ProcLikelihood.bias p) l
                 / (signal_of (ProcLikelihood.bias p) l + background_of l))%D]].
Proof.
  intros Hsel l.
  destruct (likelihood_eval_block p event n block Hsel) as (iter & Hout & Hpen & Heval).
  fold l in Heval. rewrite Heval. cbn [option_map].
  now rewrite conclude_outputs, Hout, Hpen.
Qed.

(** The shape of the outputs of [ProcLikelihood.eval] after the category
    lookup: no result when there is a category slot and no category
    value can be read at the cursor, and otherwise one output of at most
    one value. *)
Lemma likelihood_eval_shape
      (p : ProcLikelihood.t D) (event : list (list D)) (n : Z) :
  (ProcLikelihood.eval p (cursor event) n = None
   <-> 0 <= ProcLikelihood.categoryIdx p /\
       ProcLikelihood.category p (cursor event) = None) /\
  (forall iter',
      ProcLikelihood.eval p (cursor event) n = Some iter' ->
      exists out, outputs iter' = [out] /\ (length out <= 1)%nat).
Proof.
  destruct (ProcLikelihood.select p (cursor event) n) as [[ | block] | ] eqn:Hsel.
  - split.
    + unfold ProcLikelihood.eval. rewrite Hsel. split; [ discriminate | ].
      intros [Hc Hcat]. unfold ProcLikelihood.select in Hsel.
      apply Z.leb_le in Hc. rewrite Hc, Hcat in Hsel. discriminate.
    + unfold ProcLikelihood.eval. rewrite Hsel. intros iter' [= <-].
      exists []. split; [ reflexivity | cbn; lia ].
  - pose proof (likelihood_block_outputs p event n block Hsel) as Hout.
    cbn zeta in Hout. split.
    + split.
      * intros Hnone. rewrite Hnone in Hout. discriminate.
      * intros [Hc Hcat]. unfold ProcLikelihood.select in Hsel.
        apply Z.leb_le in Hc. rewrite Hc, Hcat in Hsel. discriminate.
    + intros iter' Heval. rewrite Heval in Hout. cbn [option_map] in Hout.
      injection Hout as Hout. eexists. split; [ exact Hout | ].
      destruct (_ || _); cbn; lia.
  - split.
    + unfold ProcLikelihood.eval. rewrite Hsel. split; [ intros _ | reflexivity ].
      unfold ProcLikelihood.select in Hsel.
      destruct (Z.leb_spec 0 (ProcLikelihood.categoryIdx p)); [ | discriminate ].
      split; trivial.
      destruct (ProcLikelihood.category p (cursor event)); [ | reflexivity ].
      destruct (_ || _); discriminate.
    + unfold ProcLikelihood.eval. rewrite Hsel. discriminate.
Qed.

(** [ProcLikelihood::eval] ignores the values that are not informative:
    two events whose informative values, with their PDF pairs, are the
    same in the same order give the same outputs. *)
Theorem likelihood_ignores_uninformative_values
        (p : ProcLikelihood.t D) (event1 event2 : list (list D)) (n : Z)
        (block : list (ProcLikelihood.SigBkg D)) :
  ProcLikelihood.select p (cursor event1) n = Some (ProcLikelihood.Block block) ->
  ProcLikelihood.select p (cursor event2) n = Some (ProcLikelihood.Block block) ->
  filter informative (visited p block event1)
  = filter informative (visited p block event2) ->
  option_map outputs (ProcLikelihood.eval p (cursor event1) n)
  = option_map outputs (ProcLikelihood.eval p (cursor event2) n).
Proof.
  intros Hsel1 Hsel2 Hsame.
  rewrite (likelihood_block_outputs p event1 n block Hsel1).
  rewrite (likelihood_block_outputs p event2 n block Hsel2).
  unfold count_of, signal_of, background_of. now rewrite Hsame.
Qed.

(** Evaluating with a category is evaluating without one on the selected
    block: for either processor the outputs are those of the processor
    whose table is the block, on the event without its category slot. *)
Theorem categorized_eval_is_block_eval
        (pl : ProcLikelihood.t D) (pn : ProcNormalize.t D)
        (event : list (list D)) (n n' : Z) :
  (forall block,
      ProcLikelihood.select pl (cursor event) n = Some (ProcLikelihood.Block block) ->
      option_map outputs (ProcLikelihood.eval pl (cursor event) n)
      = option_map outputs
                   (ProcLikelihood.eval
                      (block_likelihood pl block)
                      (cursor (others (ProcLikelihood.categoryIdx pl) 0 event)) n')) /\
  (forall block,
      ProcNormalize.select pn (cursor event) n = Some (ProcNormalize.Block block) ->
      option_map outputs (ProcNormalize.eval pn (cursor event) n)
      = option_map outputs
                   (ProcNormalize.eval
                      (block_normalizer block)
                      (cursor (others (ProcNormalize.categoryIdx pn) 0 event)) n')).
Proof.
  split; intros block Hsel.
  - rewrite (likelihood_block_outputs pl event n block Hsel).
    rewrite (likelihood_block_outputs (block_likelihood pl block) _ n' block eq_refl).
    unfold visited. cbn [block_likelihood ProcLikelihood.categoryIdx ProcLikelihood.bias].
    now rewrite (others_negative (-1)) by lia.
  - unfold ProcNormalize.eval. rewrite Hsel. cbn [option_map].
    rewrite !normalize_loop by reflexivity.
    cbn [block_normalizer ProcNormalize.select ProcNormalize.categoryIdx
         ProcNormalize.maps cursor slots outputs option_map Z.leb Z.compare].
    rewrite normalize_loop by reflexivity. cbn [cursor slots outputs].
    now rewrite (others_negative (-1)) by lia.
Qed.
End EvalOutputs.

(** * Further properties of the constructors *)

Section Constructors.
Context {D : Type} `{DoubleOps D} `{SplineSet D}.

Lemma interior_bins (under over : D) (bins : list D) :
  interior (under :: bins ++ [over]) = bins.
Proof. unfold interior. cbn [tl]. apply removelast_last. Qed.

(** The table of a constructed likelihood processor has one PDF pair per
    calibration entry, in order.  Without splines the densities of the
    pair are the normalized bin contents of the calibration histograms
    times their bin counts; with splines they are those of the curves
    through the bins between the underflow and the overflow bin, at the
    value brought into the range of the histogram. *)
Theorem constructed_likelihood_densities
        (calib : ProcLikelihood.Calib D) (k : nat)
        (entry : ProcLikelihood.CalibSigBkg D) (value : D) :
  nth_error (ProcLikelihood.calib_pdfs calib) k = Some entry ->
  exists pdf,
    nth_error (ProcLikelihood.pdfs (ProcLikelihood.new calib)) k = Some pdf /\
    length (ProcLikelihood.pdfs (ProcLikelihood.new calib))
    = length (ProcLikelihood.calib_pdfs calib) /\
    (ProcLikelihood.useSplines entry = false ->
     ProcLikelihood.PDF_eval (ProcLikelihood.signal pdf) value
     = (normalizedValue (ProcLikelihood.calib_signal entry) value
        * d_of_int (numberOfBins (ProcLikelihood.calib_signal entry)))%D /\
     ProcLikelihood.PDF_eval (ProcLikelihood.background pdf) value
     = (normalizedValue (ProcLikelihood.calib_background entry) value
        * d_of_int (numberOfBins (ProcLikelihood.calib_background entry)))%D) /\
    (ProcLikelihood.useSplines entry = true ->
     forall (under over under' over' : D) (bins bins' : list D),
       histo_values (ProcLikelihood.calib_signal entry) = under :: bins ++ [over] ->
       histo_values (ProcLikelihood.calib_background entry) = under' :: bins' ++ [over'] ->
       let h := ProcLikelihood.calib_signal entry in
       let h' := ProcLikelihood.calib_background entry in
       let curve := spline_set bins in
       let curve' := spline_set bins' in
       ProcLikelihood.PDF_eval (ProcLikelihood.signal pdf) value
       = (spline_eval curve ((value - range_min h) / range_width h)
          * d_of_int (spline_numberOfEntries curve) / spline_getArea curve)%D /\
       ProcLikelihood.PDF_eval (ProcLikelihood.background pdf) value
       = (spline_eval curve' ((value - range_min h') / range_width h')
          * d_of_int (spline_numberOfEntries curve') / spline_getArea curve')%D).
Proof.
  intros Hk. exists (ProcLikelihood.new_SigBkg entry).
  cbn [ProcLikelihood.new ProcLikelihood.pdfs]. split; [ | split; [ | split ] ].
  - rewrite nth_error_map, Hk. reflexivity.
  - apply length_map.
  - intros Hflag. unfold ProcLikelihood.new_SigBkg. rewrite Hflag. split; reflexivity.
  - intros Hflag under over under' over' bins bins' Hv Hv'.
    unfold ProcLikelihood.new_SigBkg. rewrite Hflag.
    cbn [ProcLikelihood.signal ProcLikelihood.background].
    unfold ProcLikelihood.new_SplinePDF.
    rewrite Hv, Hv', !interior_bins. split; reflexivity.
Qed.

(** The table of a constructed normalization processor has one map per
    calibration histogram, in order, and a map sends a value to the
    cumulative integral, at the value brought into the range of the
    histogram, of the curve through the bins between the underflow and
    the overflow bin. *)
Theorem constructed_normalization_maps
        (calib : ProcNormalize.Calib D) (k : nat) (h : HistogramF D)
        (under over : D) (bins : list D) (value : D) :
  nth_error (ProcNormalize.distr calib) k = Some h ->
  histo_values h = under :: bins ++ [over] ->
  exists m,
    nth_error (ProcNormalize.maps (ProcNormalize.new calib)) k = Some m /\
    length (ProcNormalize.maps (ProcNormalize.new calib))
    = length (ProcNormalize.distr calib) /\
    ProcNormalize.normalize m value
    = spline_integral (spline_set bins) ((value - range_min h) / range_width h)%D.
Proof.
  intros Hk Hv. exists (ProcNormalize.new_Map h).
  cbn [ProcNormalize.new ProcNormalize.maps]. split; [ | split ].
  - rewrite nth_error_map, Hk. reflexivity.
  - apply length_map.
  - unfold ProcNormalize.normalize, ProcNormalize.new_Map.
    cbn [ProcNormalize.min ProcNormalize.width ProcNormalize.spline].
    now rewrite Hv, interior_bins.
Qed.
End Constructors.

(** * Further properties of the likelihood ratio *)

Section SwapGeneric.
Context {D : Type} `{DoubleOps D}.
Hypothesis add_comm : forall a b : D, (a + b)%D = (b + a)%D.

Lemma paired_map_block {P P' : Type} (f : P -> P') (block : list P) :
  forall slots : list (list D),
    paired (map f block) slots
    = map (fun x => (f (fst x), snd x)) (paired block slots).
Proof.
  induction block as [ | x block IH ]; intros slots.
  - cbn [map]. now rewrite !paired_nil_block.
  - destruct slots as [ | slot slots ]; [ reflexivity | ].
    cbn [map]. rewrite !paired_cons, map_app, IH. f_equal.
    now rewrite map_map.
Qed.

Lemma select_swapped (p : ProcLikelihood.t D) (iter : ValueIterator D) (n : Z)
      (block : list (ProcLikelihood.SigBkg D)) :
  ProcLikelihood.select p iter n = Some (ProcLikelihood.Block block) ->
  ProcLikelihood.select (swapped p) iter n
  = Some (ProcLikelihood.Block (map swap block)).
Proof.
  unfold ProcLikelihood.select.
  change (ProcLikelihood.category (swapped p) iter) with (ProcLikelihood.category p iter).
  cbn [swapped ProcLikelihood.categoryIdx ProcLikelihood.nCategories ProcLikelihood.pdfs].
  destruct (0 <=? ProcLikelihood.categoryIdx p).
  - destruct (ProcLikelihood.category p iter) as [cat | ]; [ | discriminate ].
    destruct (_ || _); [ discriminate | ].
    intros [= <-]. now rewrite skipn_map, firstn_map.
  - now intros [= <-].
Qed.

Lemma fold_swap_signal (l : list (ProcLikelihood.SigBkg D * D)) :
  forall a : D,
    fold_left (fun s x => (s * signalProb x)%D) (map swap_visited l) a
    = fold_left (fun b x => (b * backgroundProb x)%D) l a.
Proof. induction l as [ | x l IH ]; intros a; cbn; [ reflexivity | apply IH ]. Qed.

Lemma fold_swap_background (l : list (ProcLikelihood.SigBkg D * D)) :
  forall a : D,
    fold_left (fun b x => (b * backgroundProb x)%D) (map swap_visited l) a
    = fold_left (fun s x => (s * signalProb x)%D) l a.
Proof. induction l as [ | x l IH ]; intros a; cbn; [ reflexivity | apply IH ]. Qed.

Lemma informative_swap (x : ProcLikelihood.SigBkg D * D) :
  informative (swap_visited x) = informative x.
Proof.
  unfold informative. f_equal.
  change ((backgroundProb x + signalProb x <? d_tiny)%D
          = (signalProb x + backgroundProb x <? d_tiny)%D).
  now rewrite add_comm.
Qed.

Lemma filter_informative_swap (l : list (ProcLikelihood.SigBkg D * D)) :
  filter informative (map swap_visited l) = map swap_visited (filter informative l).
Proof.
  rewrite filter_map_swap. f_equal. apply filter_ext. intros x. apply informative_swap.
Qed.

(** When the addition of [double] is commutative and the bias is 1.0,
    the processor with signal and background exchanged computes the
    count, the background as its signal and the signal as its
    background. *)
Lemma likelihood_swap_outputs
      (p : ProcLikelihood.t D) (event : list (list D)) (n : Z)
      (block : list (ProcLikelihood.SigBkg D)) :
  ProcLikelihood.bias p = d_one ->
  ProcLikelihood.select p (cursor event) n = Some (ProcLikelihood.Block block) ->
  let l := visited p block event in
  let sig := signal_of (ProcLikelihood.bias p) l in
  let bkg := background_of l in
  option_map outputs (ProcLikelihood.eval (swapped p) (cursor event) n)
  = Some [if (count_of l =? 0) || underflow (count_of l) sig bkg
          then []
          else [(bkg / (sig + bkg))%D]].
Proof.
  intros Hbias Hsel l sig bkg.
  pose proof (select_swapped p (cursor event) n block Hsel) as Hsel'.
  rewrite (likelihood_block_outputs (swapped p) event n (map swap block) Hsel').
  assert (Hv : visited (swapped p) (map swap block) event = map swap_visited l).
  { unfold visited. cbn [swapped ProcLikelihood.categoryIdx].
    apply paired_map_block. }
  rewrite Hv.
  change (ProcLikelihood.bias (swapped p)) with (ProcLikelihood.bias p).
  assert (Hc : count_of (map swap_visited l) = count_of l).
  { unfold count_of. now rewrite filter_informative_swap, length_map. }
  assert (Hs : signal_of (ProcLikelihood.bias p) (map swap_visited l) = bkg).
  { unfold bkg, signal_of, background_of. rewrite filter_informative_swap, Hbias.
    apply fold_swap_signal. }
  assert (Hb : background_of (map swap_visited l) = sig).
  { unfold sig, signal_of, background_of. rewrite filter_informative_swap, Hbias.
    apply fold_swap_background. }
  rewrite Hc, Hs, Hb. unfold underflow. now rewrite (add_comm bkg sig).
Qed.
End SwapGeneric.

(** The addition of binary64 is commutative. *)
Lemma SFadd_comm (x y : spec_float) : SFadd 53 1024 x y = SFadd 53 1024 y x.
Proof.
  destruct x as [ sx | sx | | sx mx ex ], y as [ sy | sy | | sy my ey ];
    try reflexivity; try (destruct sx, sy; reflexivity).
  cbn [SFadd]. rewrite (Z.min_comm ey ex). f_equal. apply Z.add_comm.
Qed.

Section Binary64Swap.
Variable exp : spec_float -> spec_float.
Let SW : DoubleOps spec_float := SFDouble exp.
#[local] Existing Instance SW.

(** In binary64, with bias 1.0, exchanging signal and background in
    every PDF pair of the table exchanges their roles in the result:
    with the count, the signal and the background of the processor, the
    exchanged processor abstains exactly when the processor does, and
    where the processor emits [signal / (signal + background)] it emits
    [background / (signal + background)], with the same rounded sum. *)
Theorem likelihood_swap_exchanges_signal_and_background
        (p : ProcLikelihood.t spec_float) (event : list (list spec_float)) (n : Z)
        (block : list (ProcLikelihood.SigBkg spec_float)) :
  ProcLikelihood.bias p = d_one ->
  ProcLikelihood.select p (cursor event) n = Some (ProcLikelihood.Block block) ->
  let l := visited p block event in
  let sig := signal_of (ProcLikelihood.bias p) l in
  let bkg := background_of l in
  option_map outputs (ProcLikelihood.eval p (cursor event) n)
  = Some [if (count_of l =? 0) || underflow (count_of l) sig bkg
          then []
          else [(sig / (sig + bkg))%D]] /\
  option_map outputs (ProcLikelihood.eval (swapped p) (cursor event) n)
  = Some [if (count_of l =? 0) || underflow (count_of l) sig bkg
          then []
          else [(bkg / (sig + bkg))%D]].
Proof.
  intros Hbias Hsel l sig bkg. split.
  - exact (likelihood_block_outputs p event n block Hsel).
  - exact (likelihood_swap_outputs SFadd_comm p event n block Hbias Hsel).
Qed.
End Binary64Swap.

(** * Further properties: configure and eval together *)

Lemma others_drop_length {A : Type} (c : Z) (l : list A) :
  0 <= c < Z.of_nat (length l) ->
  length (others c 0 l) = (length l - 1)%nat.
Proof.
  intros Hc. rewrite others_remove by lia.
  rewrite length_app, length_firstn, length_skipn. lia.
Qed.

Section DeclaredOutputs.
Context {D : Type} `{DoubleOps D}.

(** On its regular path the normalization processor completes as many
    outputs as [configure] declared: when the table size matches the
    slot count, the event has that many slots and, with a category slot,
    the category value read is in range, [eval] of the configured
    processor completes one output per slot other than the category
    slot, the number of outputs [configure] declared. *)
Theorem normalize_eval_completes_declared_outputs
        (p : ProcNormalize.t D) (event : list (list D)) (n : Z) :
  let size := Z.of_nat (length (ProcNormalize.maps p)) in
  let c := ProcNormalize.categoryIdx p in
  shape_matches size c n ->
  Z.of_nat (length event) = n ->
  (0 <= c ->
   exists cat, ProcNormalize.category p (cursor event) = Some cat /\
               0 <= cat < size / (n - 1)) ->
  exists p' conf' iter',
    ProcNormalize.configure p (conf_begin (length event)) n = Some (p', conf') /\
    ProcNormalize.eval p' (cursor event) n = Some iter' /\
    length (outputs iter') = length (conf_outputs conf') /\
    length (outputs iter') = length (others c 0 event).
Proof.
  intros size c Hshape Hlen Hcat.
  pose proof (normalize_configure_matching p event n Hshape) as Hconf.
  fold size c in Hconf. rewrite Hconf. clear Hconf.
  destruct Hshape as [[Hc Hn] | (Hc & Hn & Hlt & Hk)].
  - unfold categories_of. apply Z.ltb_lt in Hc as Hc'. rewrite Hc'.
    rewrite normalize_set_same.
    do 3 eexists. split; [ reflexivity | ].
    unfold ProcNormalize.eval, ProcNormalize.select. fold c.
    apply Z.leb_gt in Hc as Hc''. rewrite Hc''.
    split; [ reflexivity | ].
    cbn [conf_outputs]. rewrite repeat_length.
    rewrite normalize_loop by reflexivity. cbn [cursor outputs slots app].
    rewrite normalized_length, (others_negative c) by lia. fold size in Hn. lia.
  - destruct (Hcat (proj1 Hc)) as (cat & Hread & Hin).
    destruct (shape_checks_pass size c n) as (_ & Hd & _ & Hm);
      trivial; [ subst size; lia | ].
    unfold categories_of. destruct (Z.ltb_spec c 0) as [ | _ ]; [ lia | ].
    assert (Hq : size / (n - 1) * (n - 1) = size).
    { rewrite uint_small in Hm; trivial. destruct Hk as [k Hk].
      assert (size / (n - 1) = k) by (rewrite Hk; apply Z.div_mul; lia).
      subst size. lia. }
    destruct (normalize_select_in_table
                (ProcNormalize.set_nCategories (size / (n - 1)) p) event n cat)
      as (Hsel & _ & Hblock);
      [ exact (proj1 Hc)
      | unfold divisor; rewrite Hd; exact Hq
      | exact Hlt | exact Hread | exact Hin | ].
    do 3 eexists. split; [ reflexivity | ].
    unfold ProcNormalize.eval. rewrite Hsel.
    split; [ reflexivity | ].
    cbn [conf_outputs]. rewrite repeat_length.
    rewrite normalize_loop by reflexivity. cbn [cursor outputs slots app].
    rewrite normalized_length, Hblock. unfold divisor. rewrite Hd.
    rewrite others_drop_length by lia. lia.
Qed.

(** When the table size matches the slot count and the event has that
    many slots, [ProcLikelihood::eval] of the configured processor is
    undefined only when there is a category slot and no category value
    can be read at the cursor (an empty slot, or a value that does not
    fit an [int]).  In every other case, on every path (category out of
    range, abstention, emission), it completes exactly one output, the
    one [configure] declared, holding at most one value; and a block it
    selects has one PDF pair for each slot of the event other than the
    category slot, so that the loop over the block stays inside the
    table and the event. *)
Theorem likelihood_completes_one_output
        (p : ProcLikelihood.t D) (event : list (list D)) (n : Z) :
  let size := Z.of_nat (length (ProcLikelihood.pdfs p)) in
  let c := ProcLikelihood.categoryIdx p in
  shape_matches size c n ->
  Z.of_nat (length event) = n ->
  exists p' conf',
    ProcLikelihood.configure p (conf_begin (length event)) n = Some (p', conf') /\
    (ProcLikelihood.eval p' (cursor event) n = None
     <-> 0 <= c /\ ProcLikelihood.category p' (cursor event) = None) /\
    (forall iter',
        ProcLikelihood.eval p' (cursor event) n = Some iter' ->
        length (outputs iter') = length (conf_outputs conf') /\
        exists out, outputs iter' = [out] /\ (length out <= 1)%nat) /\
    (forall block,
        ProcLikelihood.select p' (cursor event) n = Some (ProcLikelihood.Block block) ->
        length block = length (others c 0 event)).
Proof.
  intros size c Hshape Hlen.
  pose proof (likelihood_configure_matching p (length event) n Hshape) as Hconf.
  fold size c in Hconf. rewrite Hconf. clear Hconf.
  set (p' := ProcLikelihood.set_nCategories
               (categories_of size c n (ProcLikelihood.nCategories p)) p).
  do 2 eexists. split; [ reflexivity | ].
  destruct (likelihood_eval_shape p' event n) as [Hnone Hsome].
  split; [ exact Hnone | ]. split.
  - intros iter' Heval. destruct (Hsome iter' Heval) as (out & Hout & Hone).
    split; [ now rewrite Hout | ]. now exists out.
  - intros block Hsel. unfold ProcLikelihood.select in Hsel.
    change (ProcLikelihood.categoryIdx p') with c in Hsel.
    change (ProcLikelihood.pdfs p') with (ProcLikelihood.pdfs p) in Hsel.
    destruct Hshape as [[Hc Hn] | (Hc & Hn & Hlt & Hk)].
    + apply Z.leb_gt in Hc as Hc'. rewrite Hc' in Hsel.
      injection Hsel as <-. rewrite others_negative by trivial.
      apply Nat2Z.inj. fold size. lia.
    + destruct Hc as [Hc0 Hcn]. apply Z.leb_le in Hc0 as Hc'. rewrite Hc' in Hsel.
      destruct (ProcLikelihood.category p' (cursor event)) as [cat | ] eqn:Hcat;
        [ | discriminate ].
      destruct ((cat <? 0) || _) eqn:Hrange; [ discriminate | ].
      injection Hsel as <-.
      destruct (shape_checks_pass size c n) as (_ & Hd & _ & _);
        trivial; [ subst size; lia | split; trivial | ].
      pose proof (likelihood_category_is_int _ _ _ Hcat) as Hint.
      apply (out_of_range_test cat _ Hint) in Hrange.
      unfold p', categories_of in Hrange.
      destruct (Z.ltb_spec c 0) as [ | _ ]; [ lia | ].
      cbn [ProcLikelihood.nCategories ProcLikelihood.set_nCategories] in Hrange.
      destruct Hk as [k Hk].
      assert (Hq : size / (n - 1) = k) by (rewrite Hk; apply Z.div_mul; lia).
      rewrite Hq in Hrange. rewrite Hd.
      rewrite (uint_small (cat * (n - 1))) by nia.
      rewrite block_length by (fold size; nia).
      rewrite others_drop_length by lia. lia.
Qed.
End DeclaredOutputs.

(** * The further properties at concrete processors and events *)

(** [likelihood_configure_declares] at the processor of two variables. *)
Lemma likelihood_configure_declares_witness :
  ProcLikelihood.configure Examples.likelihood_two (conf_begin 2) 2
  = Some (Examples.likelihood_two,
          {| conf_todo := 0; conf_inputs := [FLAG_ALL; FLAG_ALL];
             conf_outputs := [FLAG_OPTIONAL] |}).
Proof.
  apply (likelihood_configure_declares Examples.likelihood_two 2 2).
  left. split; [ reflexivity | reflexivity ].
Defined.

(** [normalize_configure_declares] at a category slot followed by one
    other slot. *)
Lemma normalize_configure_declares_witness :
  ProcNormalize.configure Examples.normalizer_cat0 (conf_begin 2) 2
  = Some (Examples.normalizer_cat0,
          {| conf_todo := 0; conf_inputs := [FLAG_NONE; FLAG_ALL];
             conf_outputs := [FLAG_ALL] |}).
Proof.
  apply (normalize_configure_declares Examples.normalizer_cat0 Examples.event_cat0 2).
  right. split; [ | split; [ | split ] ].
  - split; [ vm_compute; discriminate | reflexivity ].
  - split; vm_compute; discriminate.
  - reflexivity.
  - exists 1. reflexivity.
Defined.

(** [configure_idempotent] at a table of five entries and three slots,
    which the divisibility check rejects. *)
Lemma configure_idempotent_witness :
  ProcLikelihood.configure
    (ProcLikelihood.set_nCategories 2 Examples.likelihood_five) (conf_begin 3) 3
  = Some (ProcLikelihood.set_nCategories 2 Examples.likelihood_five, conf_begin 3) /\
  ProcNormalize.configure
    (ProcNormalize.set_nCategories 2 Examples.normalizer_five) (conf_begin 3) 3
  = Some (ProcNormalize.set_nCategories 2 Examples.normalizer_five, conf_begin 3).
Proof.
  destruct (@configure_idempotent Q Examples.likelihood_five Examples.normalizer_five
                                  (conf_begin 3) 3) as [Hl Hn].
  split.
  - apply (Hl _ _ eq_refl).
  - apply (Hn _ _ eq_refl).
Defined.


(** [configured_category_blocks] at one category of one entry and two
    slots. *)
Lemma configured_category_blocks_witness :
  (exists pl',
      ProcLikelihood.configure Examples.likelihood_cat0 (conf_begin 2) 2
      = Some (pl', ProcLikelihood.declare pl' (conf_begin 2)) /\
      ProcLikelihood.nCategories pl' * divisor 2 = 1) /\
  (exists pn',
      ProcNormalize.configure Examples.normalizer_cat0 (conf_begin 2) 2
      = Some (pn', ProcNormalize.declare pn' (conf_begin 2)) /\
      ProcNormalize.nCategories pn' * divisor 2 = 1).
Proof.
  destruct (configured_category_blocks
              Examples.likelihood_cat0 Examples.normalizer_cat0 (conf_begin 2) 2)
    as [Hl Hn].
  split.
  - destruct Hl as (pl' & Hconf & Hsize & _);
      [ vm_compute; discriminate | reflexivity | vm_compute; discriminate
        | reflexivity | ].
    exists pl'. split; [ exact Hconf | exact Hsize ].
  - destruct Hn as (pn' & Hconf & Hsize & _);
      [ vm_compute; discriminate | reflexivity | vm_compute; discriminate
        | reflexivity | ].
    exists pn'. split; [ exact Hconf | exact Hsize ].
Defined.

(** [likelihood_completes_one_output] at a category slot followed by
    one other slot, with category 0. *)
Lemma likelihood_completes_one_output_witness :
  shape_matches 1 0 2 /\
  exists p' conf' iter' out,
    ProcLikelihood.configure Examples.likelihood_cat0 (conf_begin 2) 2
    = Some (p', conf') /\
    ProcLikelihood.eval p' (cursor Examples.event_cat0) 2 = Some iter' /\
    conf_outputs conf' = [FLAG_OPTIONAL] /\
    outputs iter' = [out] /\ (length out <= 1)%nat.
Proof.
  assert (Hshape : shape_matches 1 0 2).
  { right. split; [ lia | ]. split; [ vm_compute; split; discriminate | ].
    split; [ reflexivity | ]. exists 1. reflexivity. }
  split; [ exact Hshape | ].
  destruct (likelihood_completes_one_output
              Examples.likelihood_cat0 Examples.event_cat0 2 Hshape eq_refl)
    as (p' & conf' & Hconf & _ & Hone & _).
  injection Hconf as <- <-.
  eexists. eexists. eexists.
  destruct (Hone _ eq_refl) as (_ & out & Hout & Hlen).
  exists out. repeat split; [ exact Hout | exact Hlen ].
Defined.

(** [likelihood_ignores_uninformative_values] at an event with and an
    event without a value for a variable whose PDF pair has no
    density. *)
Lemma likelihood_ignores_uninformative_witness :
  option_map outputs
             (ProcLikelihood.eval Examples.likelihood_blind (cursor Examples.event_two) 2)
  = option_map outputs
               (ProcLikelihood.eval Examples.likelihood_blind
                                    (cursor Examples.event_first_only) 2).
Proof.
  apply (likelihood_ignores_uninformative_values
           Examples.likelihood_blind Examples.event_two Examples.event_first_only 2
           (ProcLikelihood.pdfs Examples.likelihood_blind));
    vm_compute; reflexivity.
Defined.

(** [categorized_eval_is_block_eval] at category 0 of processors with a
    category slot. *)
Lemma categorized_eval_is_block_eval_witness :
  option_map outputs
             (ProcLikelihood.eval Examples.likelihood_cat0 (cursor Examples.event_cat0) 2)
  = option_map outputs
               (ProcLikelihood.eval
                  (block_likelihood Examples.likelihood_cat0
                                    (ProcLikelihood.pdfs Examples.likelihood_cat0))
                  (cursor [[1 # 2]%Q]) 1) /\
  option_map outputs
             (ProcNormalize.eval Examples.normalizer_cat0 (cursor Examples.event_cat0) 2)
  = option_map outputs
               (ProcNormalize.eval
                  (block_normalizer (ProcNormalize.maps Examples.normalizer_cat0))
                  (cursor [[1 # 2]%Q]) 1).
Proof.
  destruct (categorized_eval_is_block_eval
              Examples.likelihood_cat0 Examples.normalizer_cat0
              Examples.event_cat0 2 1) as [Hl Hn].
  split.
  - apply (Hl (ProcLikelihood.pdfs Examples.likelihood_cat0)). reflexivity.
  - apply (Hn (ProcNormalize.maps Examples.normalizer_cat0)). reflexivity.
Defined.

(** [constructed_likelihood_densities] and
    [constructed_normalization_maps] at a histogram with two bins between
    its underflow and its overflow bin. *)
Lemma constructed_likelihood_densities_witness :
  exists pdf,
    nth_error (ProcLikelihood.pdfs
                 (@ProcLikelihood.new Q Examples.count_spline Examples.calib_likelihood))
              0
    = Some pdf /\
    ProcLikelihood.PDF_eval (ProcLikelihood.signal pdf) 5%Q
    = (1 * inject_Z 2 / 1)%Q.
Proof.
  destruct (@constructed_likelihood_densities
              Q Examples.QD Examples.count_spline Examples.calib_likelihood 0%nat
              {| ProcLikelihood.calib_signal := Examples.histogram;
                 ProcLikelihood.calib_background := Examples.histogram;
                 ProcLikelihood.useSplines := true |}
              5%Q eq_refl)
    as (pdf & Hnth & _ & _ & Hspline).
  exists pdf. split; [ exact Hnth | ].
  exact (proj1 (Hspline eq_refl 0%Q 0%Q 0%Q 0%Q [1%Q; 3%Q] [1%Q; 3%Q] eq_refl eq_refl)).
Defined.

Lemma constructed_normalization_maps_witness :
  exists m,
    nth_error (ProcNormalize.maps
                 (@ProcNormalize.new Q Examples.count_spline Examples.calib_normalize))
              0
    = Some m /\
    ProcNormalize.normalize m 5%Q = ((5 - 0) / 10)%Q.
Proof.
  destruct (@constructed_normalization_maps
              Q Examples.QD Examples.count_spline Examples.calib_normalize 0%nat
              Examples.histogram 0%Q 0%Q [1%Q; 3%Q] 5%Q eq_refl eq_refl)
    as (m & Hnth & _ & Hnorm).
  exists m. split; [ exact Hnth | exact Hnorm ].
Defined.

(** [normalize_eval_completes_declared_outputs] at a category slot
    followed by one other slot, with category 0. *)
Lemma normalize_eval_completes_declared_outputs_witness :
  exists p' conf' iter',
    ProcNormalize.configure Examples.normalizer_cat0 (conf_begin 2) 2
    = Some (p', conf') /\
    ProcNormalize.eval p' (cursor Examples.event_cat0) 2 = Some iter' /\
    length (outputs iter') = length (conf_outputs conf') /\
    length (outputs iter') = 1%nat.
Proof.
  apply (normalize_eval_completes_declared_outputs
           Examples.normalizer_cat0 Examples.event_cat0 2).
  - right. split; [ | split; [ | split ] ].
    + split; [ vm_compute; discriminate | reflexivity ].
    + split; vm_compute; discriminate.
    + reflexivity.
    + exists 1. reflexivity.
  - reflexivity.
  - intros _. exists 0. split; [ reflexivity | ].
    split; [ vm_compute; discriminate | reflexivity ].
Defined.

(** [likelihood_swap_exchanges_signal_and_background] at the processor
    of one variable with signal density 0.8 and background density 0.2:
    the sum of the densities is 1.0 and the two outputs are the two
    densities. *)
Lemma likelihood_swap_witness :
  option_map outputs
             (ProcLikelihood.eval Examples.likelihood64_one (cursor Examples.event64_one) 1)
  = Some [[Examples.four_fifths]] /\
  option_map outputs
             (ProcLikelihood.eval (swapped Examples.likelihood64_one)
                                  (cursor Examples.event64_one) 1)
  = Some [[Examples.one_fifth]].
Proof.
  exact (likelihood_swap_exchanges_signal_and_background
           SFexp_approx Examples.likelihood64_one Examples.event64_one 1
           (ProcLikelihood.pdfs Examples.likelihood64_one) eq_refl eq_refl).
Defined.
